(** * network_manager: the front-end stores, the real-time event handler,
      the command wrappers and the Performance and Security pages

    A shallow embedding of the TypeScript sources

      - [src/lib/tauri/types.ts]      (the data model),
      - [src/stores/serviceStore.ts]  (the service store and its actions),
      - [src/stores/portStore.ts]     (the port store and its actions),
      - [src/lib/hooks/useRealtime.ts] (the real-time event handler),
      - [src/lib/tauri/commands.ts]   (the command wrappers),
      - [src/pages/Performance.tsx]   (the bounded history of samples),
      - [src/pages/Security.tsx]      (the two groups of issues),

    and the properties of the specification that concern them.

    Conventions.  A JavaScript array is a [list]; [T | null] is [option T];
    a string-literal union is an inductive type; an integral [number]
    (port, pid, byte count, timestamp) is an [N] and a fractional one (a
    percentage) a primitive [float].  A zustand store is a record, and
    [set(partial)] is a record update that leaves the other fields alone.
    A promise is modelled by its [Outcome]: fulfilled with a value or
    rejected with an error (a string, which is what [String(error)] makes of
    it). *)

From Stdlib Require Import List String Ascii Bool Arith NArith Lia.
From Stdlib Require Import Permutation Sorted DecimalString.
From Stdlib Require Import Floats.PrimFloat.
Import ListNotations.

Local Open Scope string_scope.
Local Open Scope list_scope.

Definition number := float.

(** ** The data model ([src/lib/tauri/types.ts]) *)

Inductive ServiceStatus := running | stopped | status_error | status_unknown.

Inductive ServiceType := docker | systemd | launchd | windows_service | process.

Module Service.
Record t := mk {
  id : string;
  name : string;
  status : ServiceStatus;
  service_type : ServiceType;
  ports : list N;
  pid : option N;
  path : option string;
  description : option string;
  auto_start : bool;
  cpu_usage : option number;
  memory_bytes : option N;
  memory_percent : option number
}.

(** [{ ...service, status: s }] *)
Definition with_status (s : ServiceStatus) (service : t) : t :=
  mk (id service) (name service) s (service_type service) (ports service)
     (pid service) (path service) (description service) (auto_start service)
     (cpu_usage service) (memory_bytes service) (memory_percent service).

(** [{ ...service, ports: p }] *)
Definition with_ports (p : list N) (service : t) : t :=
  mk (id service) (name service) (status service) (service_type service) p
     (pid service) (path service) (description service) (auto_start service)
     (cpu_usage service) (memory_bytes service) (memory_percent service).
End Service.

Inductive Protocol := tcp | udp.
Inductive PortStatus := occupied | free.

Module PortInfo.
Record t := mk {
  port : N;
  protocol : Protocol;
  status : PortStatus;
  process_name : option string;
  pid : option N
}.
End PortInfo.

Inductive SecuritySeverity := critical | high | medium | low | info.

Inductive SecurityCategory :=
| unencrypted_connection | public_exposure | default_credentials
| outdated_software | missing_authentication | insecure_configuration
| privilege_escalation | data_leakage.

Module SecurityIssue.
Record t := mk {
  id : string;
  service_id : option string;
  service_name : option string;
  category : SecurityCategory;
  severity : SecuritySeverity;
  title : string;
  description : string;
  recommendation : string;
  port : option N;
  details : option string
}.
End SecurityIssue.

Module SecurityScanResult.
Record t := mk {
  issues : list SecurityIssue.t;
  scan_timestamp : N;
  services_scanned : N;
  ports_scanned : N;
  critical_count : N;
  high_count : N;
  medium_count : N;
  low_count : N
}.
End SecurityScanResult.

Module CpuStats.
Record t := mk {
  usage_percent : number;
  core_count : N;
  per_core_usage : list number;
  frequency_mhz : option number
}.
End CpuStats.

Module MemoryStats.
Record t := mk {
  total_bytes : N;
  used_bytes : N;
  available_bytes : N;
  usage_percent : number;
  swap_total_bytes : N;
  swap_used_bytes : N
}.
End MemoryStats.

Module GpuStats.
Record t := mk {
  name : string;
  usage_percent : option number;
  memory_used_bytes : option N;
  memory_total_bytes : option N;
  temperature_celsius : option number;
  power_watts : option number
}.
End GpuStats.

Module SystemStats.
Record t := mk {
  cpu : CpuStats.t;
  memory : MemoryStats.t;
  gpus : list GpuStats.t;
  timestamp : N
}.
End SystemStats.

(** ** Promises *)

Inductive Outcome (A : Type) :=
| Fulfilled (value : A)
| Rejected (error : string).
Arguments Fulfilled {A} value.
Arguments Rejected {A} error.

(** ** The service store ([src/stores/serviceStore.ts]): its state *)

Module ServiceState.
Record t := mk {
  services : list Service.t;
  selectedService : option Service.t;
  isLoading : bool;
  error : option string;
  autoRefreshInterval : option N;
  refreshIntervalMs : N
}.

(** The state [create] starts the store with. *)
Definition initial : t := mk [] None false None None 3000.

Definition set_services (v : list Service.t) (s : t) : t :=
  mk v (selectedService s) (isLoading s) (error s)
     (autoRefreshInterval s) (refreshIntervalMs s).
Definition set_selectedService (v : option Service.t) (s : t) : t :=
  mk (services s) v (isLoading s) (error s)
     (autoRefreshInterval s) (refreshIntervalMs s).
Definition set_isLoading (v : bool) (s : t) : t :=
  mk (services s) (selectedService s) v (error s)
     (autoRefreshInterval s) (refreshIntervalMs s).
Definition set_error (v : option string) (s : t) : t :=
  mk (services s) (selectedService s) (isLoading s) v
     (autoRefreshInterval s) (refreshIntervalMs s).

(** The ids of the services of a store, in list order. *)
Definition ids (s : t) : list string := map Service.id (services s).
End ServiceState.

(** ** The real-time event handler ([src/lib/hooks/useRealtime.ts]) *)

Module Realtime.
Import ServiceState.

(** The events of the backend's stream.  The handler casts [new_status]
    to [Service["status"]], so the payload carries a [ServiceStatus]. *)
Inductive ServiceEvent :=
| ServicesDiscovered (payload : list Service.t)
| ServiceStatusChanged (service_id : string) (old_status new_status : ServiceStatus)
| ServiceAdded (payload : Service.t)
| ServiceRemoved (service_id : string)
| ServicePortsChanged (service_id : string) (ports : list N).

(** What the handler asks of the other store. *)
Inductive Cmd := FetchPortUsage.

(** [handleServiceEvent]: the new state of the service store and the
    actions of the port store the handler starts. *)
Definition handleServiceEvent (event : ServiceEvent) (state : ServiceState.t)
  : ServiceState.t * list Cmd :=
  match event with
  | ServicesDiscovered payload =>
      (set_isLoading false (set_services payload state), [])
  | ServiceStatusChanged service_id _ new_status =>
      (set_services
         (map (fun service =>
                 if String.eqb (Service.id service) service_id
                 then Service.with_status new_status service
                 else service)
              (services state))
         state, [])
  | ServiceAdded payload =>
      (set_services (services state ++ [payload]) state, [])
  | ServiceRemoved service_id =>
      (set_selectedService
         (match selectedService state with
          | Some sel =>
              if String.eqb (Service.id sel) service_id then None else Some sel
          | None => None
          end)
         (set_services
            (filter (fun service =>
                       negb (String.eqb (Service.id service) service_id))
                    (services state))
            state), [])
  | ServicePortsChanged service_id ports =>
      (set_services
         (map (fun service =>
                 if String.eqb (Service.id service) service_id
                 then Service.with_ports ports service
                 else service)
              (services state))
         state, [FetchPortUsage])
  end.

(** One step of the store under an event, and a run under a sequence. *)
Definition step (state : ServiceState.t) (event : ServiceEvent) : ServiceState.t :=
  fst (handleServiceEvent event state).

Definition run (events : list ServiceEvent) (state : ServiceState.t) : ServiceState.t :=
  fold_left step events state.

(** Pairwise-distinct ids. *)
Definition distinct_ids (l : list Service.t) : Prop := NoDup (map Service.id l).
(** The events the claim on id uniqueness admits: any event, a
    [ServicesDiscovered] with pairwise-distinct ids. *)
Definition distinct_payload (event : ServiceEvent) : Prop :=
  match event with
  | ServicesDiscovered payload => distinct_ids payload
  | _ => True
  end.

(** The events the handler keeps ids distinct under: besides, a
    [ServiceAdded] carries an id the store does not hold yet. *)
Definition fresh_payload (state : ServiceState.t) (event : ServiceEvent) : Prop :=
  match event with
  | ServicesDiscovered payload => distinct_ids payload
  | ServiceAdded payload => ~ In (Service.id payload) (ids state)
  | _ => True
  end.

End Realtime.


(** ** The backend commands the stores call ([src/lib/tauri/commands.ts])

    Each wrapper is one [invoke] of a command of the backend, whose code is
    not part of the front end: a call is recorded in the trace of the run
    and answered by the backend, here a parameter of the store's actions. *)

Inductive ApiCall :=
| DiscoverServices
| StartService (serviceId : string)
| StopService (serviceId : string)
| RestartService (serviceId : string)
| KillProcess (pid : N)
| EnableServiceAutostart (serviceId : string) (serviceType : ServiceType)
| DisableServiceAutostart (serviceId : string) (serviceType : ServiceType).

(** ** The actions of the service store ([src/stores/serviceStore.ts]) *)

Module ServiceStore.
Import ServiceState.

(** An asynchronous action runs from a state of the store and a trace of the
    backend calls made so far, and settles. *)
Definition Action (A : Type) : Type :=
  ServiceState.t -> list ApiCall -> (ServiceState.t * list ApiCall) * Outcome A.

Definition ret {A} (a : A) : Action A :=
  fun state trace => ((state, trace), Fulfilled a).

(** [await m; k]: a rejection of [m] skips [k]. *)
Definition bind {A B} (m : Action A) (k : A -> Action B) : Action B :=
  fun state trace =>
    match m state trace with
    | (w, Fulfilled a) => k a (fst w) (snd w)
    | (w, Rejected e) => (w, Rejected e)
    end.

(** [throw error] *)
Definition throw {A} (e : string) : Action A :=
  fun state trace => ((state, trace), Rejected e).

(** [try { m } catch (error) { handler(String(error)) }] *)
Definition try_catch {A} (m : Action A) (handler : string -> Action A) : Action A :=
  fun state trace =>
    match m state trace with
    | (w, Fulfilled a) => (w, Fulfilled a)
    | (w, Rejected e) => handler e (fst w) (snd w)
    end.

(** [get()] and [set(partial)] *)
Definition get : Action ServiceState.t :=
  fun state trace => ((state, trace), Fulfilled state).

Definition set (update : ServiceState.t -> ServiceState.t) : Action unit :=
  fun state trace => ((update state, trace), Fulfilled tt).

Declare Scope action_scope.
Delimit Scope action_scope with action.
Notation "x <- m ;; k" := (bind m (fun x => k))
  (at level 61, m at next level, right associativity) : action_scope.
Notation "m ;; k" := (bind m (fun _ => k))
  (at level 61, right associativity) : action_scope.
Local Open Scope action_scope.

(** [services.find(s => s.id === serviceId)] *)
Definition find_service (serviceId : string) (l : list Service.t) : option Service.t :=
  find (fun s => String.eqb (Service.id s) serviceId) l.

(** The truthiness of [service?.pid]: a pid that is neither absent, [null]
    nor [0]. *)
Definition truthy_pid (service : option Service.t) : option N :=
  match service with
  | Some s =>
      match Service.pid s with
      | Some p => if N.eqb p 0 then None else Some p
      | None => None
      end
  | None => None
  end.

Section Backend.

(** The backend's answer to [discover_services] and to a control command. *)
Variable discover : Outcome (list Service.t).
Variable control : ApiCall -> Outcome unit.

Definition api_discoverServices : Action (list Service.t) :=
  fun state trace => ((state, trace ++ [DiscoverServices]), discover).

Definition api_control (call : ApiCall) : Action unit :=
  fun state trace => ((state, trace ++ [call]), control call).

Definition fetchServices : Action unit :=
  state <- get ;;
  (match autoRefreshInterval state with
   | None => set (fun s => set_error None (set_isLoading true s))
   | Some _ => ret tt
   end) ;;
  try_catch
    (services <- api_discoverServices ;;
     set (fun s => set_isLoading false (set_services services s)))
    (fun error => set (fun s => set_isLoading false (set_error (Some error) s))).

Definition selectService (service : option Service.t) : Action unit :=
  set (set_selectedService service).

Definition startService (serviceId : string) : Action unit :=
  try_catch
    (api_control (StartService serviceId) ;; fetchServices)
    (fun error => set (set_error (Some error))).

Definition stopService (serviceId : string) : Action unit :=
  try_catch
    (api_control (StopService serviceId) ;; fetchServices)
    (fun error => set (set_error (Some error))).

Definition restartService (serviceId : string) : Action unit :=
  try_catch
    (api_control (RestartService serviceId) ;; fetchServices)
    (fun error => set (set_error (Some error))).

Definition killService (serviceId : string) : Action unit :=
  try_catch
    (state <- get ;;
     match truthy_pid (find_service serviceId (services state)) with
     | Some pid => api_control (KillProcess pid) ;; fetchServices
     | None => ret tt
     end)
    (fun error => set (set_error (Some error))).

Definition toggleAutostart (serviceId : string) (enable : bool) : Action unit :=
  state <- get ;;
  match find_service serviceId (services state) with
  | None => set (set_error (Some "Service nicht gefunden"))
  | Some service =>
      try_catch
        ((if enable
          then api_control (EnableServiceAutostart serviceId (Service.service_type service))
          else api_control (DisableServiceAutostart serviceId (Service.service_type service))) ;;
         fetchServices)
        (fun error => set (set_error (Some error)) ;; throw error)
  end.

End Backend.

(** A run of an action from a state of the store, with an empty trace. *)
Definition exec {A} (m : Action A) (state : ServiceState.t)
  : (ServiceState.t * list ApiCall) * Outcome A :=
  m state [].

End ServiceStore.


(** ** The free-port search of the backend *)

Module PortCorrelator.

(** Modelled from the spec: the first non-well-known port, the maximum port
    value and the failure of an exhausted search. *)
Definition first_port : N := 1024.
Definition max_port : N := 65535.
Definition ExhaustedRange : string := "ExhaustedRange".

(** The number of ports from [first_port] to [max_port]. *)
Definition range_size : nat := N.to_nat (max_port - first_port + 1).

Definition is_occupied (occupied_set : list N) (port : N) : bool :=
  existsb (N.eqb port) occupied_set.

(** Modelled from the spec: the upward scan of the backend's free-port
    search, whose code is not part of the front end.  [fuel] ports are left
    to look at, from [port] on; a port absent from the occupied set is
    taken, and the scan fails when the ports run out before [count] are
    found. *)
Fixpoint scan (fuel : nat) (port : N) (occupied_set : list N) (count : nat)
  {struct fuel} : Outcome (list N) :=
  match count with
  | O => Fulfilled []
  | S count' =>
      match fuel with
      | O => Rejected ExhaustedRange
      | S fuel' =>
          if is_occupied occupied_set port
          then scan fuel' (port + 1) occupied_set count
          else match scan fuel' (port + 1) occupied_set count' with
               | Fulfilled found => Fulfilled (port :: found)
               | Rejected e => Rejected e
               end
      end
  end.

(** Modelled from the spec: the backend command [find_free_ports], whose
    code is not part of the front end.  "Free-port queries
    ([findFreePorts(count)]) scan upward from the first non-well-known port
    (1024) and return the first [count] ports absent from the occupied set;
    fails with [ExhaustedRange] if the scan reaches the maximum port value
    (65535) before satisfying [count]." *)
Definition find_free_ports (occupied_set : list N) (count : nat) : Outcome (list N) :=
  scan range_size first_port occupied_set count.

End PortCorrelator.

(** ** The port store ([src/stores/portStore.ts]) *)

Module PortState.
Record t := mk {
  ports : list PortInfo.t;
  isLoading : bool;
  error : option string
}.

Definition initial : t := mk [] false None.

Definition set_ports (v : list PortInfo.t) (s : t) : t := mk v (isLoading s) (error s).
Definition set_isLoading (v : bool) (s : t) : t := mk (ports s) v (error s).
Definition set_error (v : option string) (s : t) : t := mk (ports s) (isLoading s) v.
End PortState.

Module PortStore.
Import PortState.

Section Backend.

(** The backend's answers to [get_port_usage], [scan_ports] and
    [find_free_ports]. *)
Variable api_getPortUsage : Outcome (list PortInfo.t).
Variable api_scanPorts : N -> N -> Outcome (list PortInfo.t).
Variable api_findFreePorts : nat -> Outcome (list N).

Definition fetchPortUsage (state : PortState.t) : PortState.t * Outcome unit :=
  let state := set_error None (set_isLoading true state) in
  match api_getPortUsage with
  | Fulfilled ports => (set_isLoading false (set_ports ports state), Fulfilled tt)
  | Rejected error => (set_isLoading false (set_error (Some error) state), Fulfilled tt)
  end.

Definition scanPorts (start end_ : N) (state : PortState.t) : PortState.t * Outcome unit :=
  let state := set_error None (set_isLoading true state) in
  match api_scanPorts start end_ with
  | Fulfilled ports => (set_isLoading false (set_ports ports state), Fulfilled tt)
  | Rejected error => (set_isLoading false (set_error (Some error) state), Fulfilled tt)
  end.

(** [try { return await api.findFreePorts(count) }
     catch (error) { set({ error: String(error) }); return [] }] *)
Definition findFreePorts (count : nat) (state : PortState.t)
  : PortState.t * Outcome (list N) :=
  match api_findFreePorts count with
  | Fulfilled found => (state, Fulfilled found)
  | Rejected error => (set_error (Some error) state, Fulfilled [])
  end.

End Backend.
End PortStore.

(** What the specification promises of [findFreePorts(n)], read on the
    outcome its caller gets: [n] strictly ascending free ports from 1024 on,
    or the failure [ExhaustedRange]. *)
Definition free_ports_promise (occupied_set : list N) (n : nat)
  (outcome : Outcome (list N)) : Prop :=
  match outcome with
  | Fulfilled found =>
      List.length found = n /\
      StronglySorted N.lt found /\
      Forall (fun p => (1024 <= p)%N) found /\
      Forall (fun p => ~ In p occupied_set) found
  | Rejected e => e = PortCorrelator.ExhaustedRange
  end.

(** ** JSON values and [JSON.stringify] *)

#[local] Set Warnings "-register-all".

Inductive JSON :=
| JNull
| JBool (b : bool)
| JNumber (n : N)
| JString (s : string)
| JArray (elements : list JSON)
| JObject (members : list (string * JSON)).

Local Open Scope string_scope.

(** The double quote, as a one-character string. *)
Definition dquote : string := String (ascii_of_N 34) EmptyString.

Definition hex_digit (n : N) : ascii :=
  ascii_of_N (if (n <? 10)%N then 48 + n else 87 + n).

(** The escape of one character inside a JSON string. *)
Definition escape_char (c : ascii) : string :=
  let n := N_of_ascii c in
  if (n =? 34)%N then "\" ++ dquote
  else if (n =? 92)%N then "\\"
  else if (n =? 8)%N then "\b"
  else if (n =? 12)%N then "\f"
  else if (n =? 10)%N then "\n"
  else if (n =? 13)%N then "\r"
  else if (n =? 9)%N then "\t"
  else if (n <? 32)%N
       then "\u00" ++ String (hex_digit (n / 16)) (String (hex_digit (n mod 16)) EmptyString)
  else String c EmptyString.

Fixpoint escape (s : string) : string :=
  match s with
  | EmptyString => EmptyString
  | String c rest => escape_char c ++ escape rest
  end.

Definition quote (s : string) : string := dquote ++ escape s ++ dquote.

Definition decimal (n : N) : string := NilEmpty.string_of_uint (N.to_uint n).

(** [JSON.stringify] without indentation, on the values above. *)
Fixpoint stringify (j : JSON) : string :=
  match j with
  | JNull => "null"
  | JBool true => "true"
  | JBool false => "false"
  | JNumber n => decimal n
  | JString s => quote s
  | JArray elements =>
      "[" ++
      (fix elems (l : list JSON) : string :=
         match l with
         | [] => EmptyString
         | x :: rest =>
             match rest with
             | [] => stringify x
             | _ :: _ => stringify x ++ "," ++ elems rest
             end
         end) elements
      ++ "]"
  | JObject members =>
      "{" ++
      (fix membs (l : list (string * JSON)) : string :=
         match l with
         | [] => EmptyString
         | (k, v) :: rest =>
             match rest with
             | [] => quote k ++ ":" ++ stringify v
             | _ :: _ => quote k ++ ":" ++ stringify v ++ "," ++ membs rest
             end
         end) members
      ++ "}"
  end.

Local Open Scope list_scope.

(** ** The command wrappers ([src/lib/tauri/commands.ts]) *)

Module Commands.

(** An [invoke(cmd, args)] of the backend. *)
Record Invoke := mkInvoke {
  cmd : string;
  args : list (string * JSON)
}.

Definition status_string (s : ServiceStatus) : string :=
  match s with
  | running => "running"
  | stopped => "stopped"
  | status_error => "error"
  | status_unknown => "unknown"
  end.

Definition type_string (t : ServiceType) : string :=
  match t with
  | docker => "docker"
  | systemd => "systemd"
  | launchd => "launchd"
  | windows_service => "windows_service"
  | process => "process"
  end.

(** [Array.prototype.slice(0, n)] *)
Definition slice_to {A} (n : nat) (l : list A) : list A := firstn n l.

(** The object literal [getServiceRecommendations] maps a service to. *)
Definition project (s : Service.t) : JSON :=
  JObject
    [ ("id", JString (Service.id s));
      ("name", JString (Service.name s));
      ("status", JString (status_string (Service.status s)));
      ("type", JString (type_string (Service.service_type s)));
      ("ports", JArray (map JNumber (Service.ports s)));
      ("auto_start", JBool (Service.auto_start s)) ].

(** The value handed to [JSON.stringify]. *)
Definition recommendations_payload (services : list Service.t) : JSON :=
  JArray (map project (slice_to 50 services)).

Definition getServiceRecommendations (services : list Service.t) : Invoke :=
  let servicesJson := stringify (recommendations_payload services) in
  mkInvoke "get_service_recommendations" [("servicesJson", JString servicesJson)].

End Commands.

(** ** The Performance page ([src/pages/Performance.tsx]) *)

Module Performance.

Record StatsHistory := mkHistory {
  timestamps : list N;
  cpuUsage : list number;
  memoryUsage : list number;
  gpuUsage : list number
}.

Definition MAX_HISTORY_POINTS : nat := 360.
Definition UPDATE_INTERVAL : N := 5000.

(** [Array.prototype.slice(-n)]: the last [n] elements, the whole array when
    it has fewer; [slice(-0)] is [slice(0)], the whole array. *)
Definition slice_last {A} (n : nat) (l : list A) : list A :=
  match n with
  | O => l
  | S _ => skipn (List.length l - n) l
  end.

(** [newStats.gpus[0]?.usage_percent ?? 0] *)
Definition first_gpu_usage (newStats : SystemStats.t) : number :=
  match SystemStats.gpus newStats with
  | [] => 0%float
  | gpu :: _ =>
      match GpuStats.usage_percent gpu with
      | Some u => u
      | None => 0%float
      end
  end.

(** The updater [fetchStats] passes to [setHistory]. *)
Definition push_sample (newStats : SystemStats.t) (prev : StatsHistory) : StatsHistory :=
  let newTimestamps := timestamps prev ++ [SystemStats.timestamp newStats] in
  let newCpuUsage := cpuUsage prev ++ [CpuStats.usage_percent (SystemStats.cpu newStats)] in
  let newMemoryUsage :=
    memoryUsage prev ++ [MemoryStats.usage_percent (SystemStats.memory newStats)] in
  let newGpuUsage := gpuUsage prev ++ [first_gpu_usage newStats] in
  mkHistory (slice_last MAX_HISTORY_POINTS newTimestamps)
            (slice_last MAX_HISTORY_POINTS newCpuUsage)
            (slice_last MAX_HISTORY_POINTS newMemoryUsage)
            (slice_last MAX_HISTORY_POINTS newGpuUsage).

(** The state of the page that [fetchStats] writes. *)
Record Page := mkPage {
  stats : option SystemStats.t;
  history : StatsHistory;
  error : option string
}.

Definition initial : Page := mkPage None (mkHistory [] [] [] []) None.

(** [fetchStats], given how [api.getSystemStats()] settles. *)
Definition fetchStats (reply : Outcome SystemStats.t) (page : Page) : Page :=
  match reply with
  | Fulfilled newStats => mkPage (Some newStats) (push_sample newStats (history page)) None
  | Rejected err => mkPage (stats page) (history page) (Some err)
  end.

(** A run of ticks, each with the answer of the backend. *)
Definition ticks (replies : list (Outcome SystemStats.t)) (page : Page) : Page :=
  fold_left (fun p r => fetchStats r p) replies page.

(** The samples of the successful ticks of a run, in arrival order. *)
Definition successes (replies : list (Outcome SystemStats.t)) : list SystemStats.t :=
  flat_map (fun r => match r with Fulfilled s => [s] | Rejected _ => [] end) replies.

End Performance.

(** ** The Security page ([src/pages/Security.tsx]) *)

Definition severity_eqb (a b : SecuritySeverity) : bool :=
  match a, b with
  | critical, critical | high, high | medium, medium | low, low | info, info => true
  | _, _ => false
  end.

Definition severity_eq_dec (a b : SecuritySeverity) : {a = b} + {a <> b}.
Proof. decide equality. Defined.

Module Security.

(** [scanResult?.issues.filter(...) || []]: a filtered array is truthy, so
    the empty array stands in only for an absent result. *)
Definition criticalAndHigh (scanResult : option SecurityScanResult.t)
  : list SecurityIssue.t :=
  match scanResult with
  | Some r =>
      filter (fun i => severity_eqb (SecurityIssue.severity i) critical
                       || severity_eqb (SecurityIssue.severity i) high)
             (SecurityScanResult.issues r)
  | None => []
  end.

Definition mediumAndLow (scanResult : option SecurityScanResult.t)
  : list SecurityIssue.t :=
  match scanResult with
  | Some r =>
      filter (fun i => severity_eqb (SecurityIssue.severity i) medium
                       || severity_eqb (SecurityIssue.severity i) low
                       || severity_eqb (SecurityIssue.severity i) info)
             (SecurityScanResult.issues r)
  | None => []
  end.

End Security.

(** ** The result of a security scan *)

Module SecurityEngine.

(** Modelled from the spec: [count(issues, severity == X)], the derivation
    the backend's scan result is specified by. *)
Definition count_severity (X : SecuritySeverity) (issues : list SecurityIssue.t) : N :=
  N.of_nat (List.length (filter (fun i => severity_eqb (SecurityIssue.severity i) X) issues)).

(** Modelled from the spec: how the backend command [scan_security], whose
    code is not part of the front end, fills the result of a scan.
    "Aggregate counts ([critical_count], etc.) are derived, not stored
    independently, and must always equal the count of issues with that
    severity in the same result." *)
Definition scan_result (issues : list SecurityIssue.t)
  (scan_timestamp services_scanned ports_scanned : N) : SecurityScanResult.t :=
  SecurityScanResult.mk issues scan_timestamp services_scanned ports_scanned
    (count_severity critical issues) (count_severity high issues)
    (count_severity medium issues) (count_severity low issues).

End SecurityEngine.

(** ** Sample values, for the examples below *)

Module Examples.
Import ServiceState.

Definition example_service (id : string) : Service.t :=
  Service.mk id "nginx" running docker [80%N] (Some 4321%N) None None true None None None.

Definition example_state : ServiceState.t :=
  set_services [example_service "docker:web"] initial.


(** A sample of the resource sampler taken at time [t]. *)
Definition example_stats (t : N) : SystemStats.t :=
  SystemStats.mk (CpuStats.mk 12.5%float 8 [] None)
                 (MemoryStats.mk 16000000000 8000000000 8000000000 50%float 0 0)
                 [] t.

(** The answers of the backend over 361 ticks, at times 1, ..., 361. *)
Definition example_run : list (Outcome SystemStats.t) :=
  map (fun t => Fulfilled (example_stats (N.of_nat t))) (seq 1 361).
End Examples.

(** ** Runs of the event handler under the emitter's contract *)

Module RealtimeRuns.
Import ServiceState Realtime.

(** Every event of the run is one the emitter sends in the state it finds:
    a [ServiceAdded] carries an id the store does not hold, a
    [ServicesDiscovered] carries distinct ids. *)
Fixpoint fresh_run (state : ServiceState.t) (events : list ServiceEvent) : Prop :=
  match events with
  | [] => True
  | event :: rest => fresh_payload state event /\ fresh_run (step state event) rest
  end.

(** The service id an event is about, if it is about one. *)
Definition event_id (event : ServiceEvent) : option string :=
  match event with
  | ServicesDiscovered _ => None
  | ServiceStatusChanged service_id _ _ => Some service_id
  | ServiceAdded payload => Some (Service.id payload)
  | ServiceRemoved service_id => Some service_id
  | ServicePortsChanged service_id _ => Some service_id
  end.

End RealtimeRuns.

(** [killService] on the sample store, with a backend that is offline for
    discovery and denies every command. *)
Definition exec_kill_example :=
  ServiceStore.exec
    (ServiceStore.killService (Rejected "offline") (fun _ => Rejected "denied")
       (Service.id (Examples.example_service "docker:web")))
    Examples.example_state.

(** The command [toggleAutostart] sends for a service. *)
Definition autostart_call (serviceId : string) (enable : bool) (service : Service.t)
  : ApiCall :=
  if enable
  then EnableServiceAutostart serviceId (Service.service_type service)
  else DisableServiceAutostart serviceId (Service.service_type service).

(** ** The auto-refresh timer of the service store
       ([src/stores/serviceStore.ts]) *)

Module AutoRefresh.
Import ServiceState.

Definition set_autoRefreshInterval (v : option N) (s : ServiceState.t) : ServiceState.t :=
  ServiceState.mk (services s) (selectedService s) (isLoading s) (error s)
                  v (refreshIntervalMs s).
Definition set_refreshIntervalMs (v : N) (s : ServiceState.t) : ServiceState.t :=
  ServiceState.mk (services s) (selectedService s) (isLoading s) (error s)
                  (autoRefreshInterval s) v.

(** A live interval timer of the window: its handle and its period.  The
    callback of every timer of the store is [() => get().fetchServices()]. *)
Record Timer := mkTimer {
  handle : N;
  period : N
}.

(** The store together with the timers of the window: the live timers, in
    the order they were set, and the handle the next timer gets. *)
Record Env := mkEnv {
  store : ServiceState.t;
  timers : list Timer;
  next_handle : N
}.

Definition initial_env : Env := mkEnv ServiceState.initial [] 1.

(** [window.setInterval(callback, ms)]: a timer with a fresh handle. *)
Definition setInterval (ms : N) (env : Env) : N * Env :=
  (next_handle env,
   mkEnv (store env) (timers env ++ [mkTimer (next_handle env) ms])
         (next_handle env + 1)).

(** [clearInterval(h)] *)
Definition clearInterval (h : N) (env : Env) : Env :=
  mkEnv (store env) (filter (fun t => negb (N.eqb (handle t) h)) (timers env))
        (next_handle env).

(** [set(partial)] *)
Definition set (update : ServiceState.t -> ServiceState.t) (env : Env) : Env :=
  mkEnv (update (store env)) (timers env) (next_handle env).

Definition startAutoRefresh (intervalMs : option N) (env : Env) : Env :=
  let state := store env in
  let env :=
    match autoRefreshInterval state with
    | Some h => clearInterval h env
    | None => env
    end in
  let ms :=
    match intervalMs with
    | Some ms => ms
    | None => refreshIntervalMs state
    end in
  let (interval, env) := setInterval ms env in
  set (fun s => set_refreshIntervalMs ms (set_autoRefreshInterval (Some interval) s)) env.

Definition stopAutoRefresh (env : Env) : Env :=
  let state := store env in
  match autoRefreshInterval state with
  | Some h => set (set_autoRefreshInterval None) (clearInterval h env)
  | None => env
  end.

Definition setRefreshInterval (intervalMs : N) (env : Env) : Env :=
  let state := store env in
  let env := set (set_refreshIntervalMs intervalMs) env in
  match autoRefreshInterval state with
  | Some _ => startAutoRefresh (Some intervalMs) env
  | None => env
  end.

(** The calls of the three actions, and runs of them. *)
Inductive Op :=
| Start (intervalMs : option N)
| Stop
| SetInterval (intervalMs : N).

Definition apply_op (env : Env) (op : Op) : Env :=
  match op with
  | Start intervalMs => startAutoRefresh intervalMs env
  | Stop => stopAutoRefresh env
  | SetInterval intervalMs => setRefreshInterval intervalMs env
  end.

Definition run_ops (ops : list Op) (env : Env) : Env := fold_left apply_op ops env.

(** The timers the store accounts for: the one whose handle it holds, with
    the period it holds, or none. *)
Definition accounted_timers (state : ServiceState.t) : list Timer :=
  match autoRefreshInterval state with
  | Some h => [mkTimer h (refreshIntervalMs state)]
  | None => []
  end.

End AutoRefresh.

(** ** The hooks over the stores ([src/lib/hooks/usePorts.ts],
       [src/lib/hooks/useServices.ts]) and the counts of the Dashboard
       ([src/pages/Dashboard.tsx]): what they compute from the store's lists *)

Definition protocol_eqb (a b : Protocol) : bool :=
  match a, b with
  | tcp, tcp | udp, udp => true
  | _, _ => false
  end.

Definition port_status_eqb (a b : PortStatus) : bool :=
  match a, b with
  | occupied, occupied | free, free => true
  | _, _ => false
  end.

Definition status_eqb (a b : ServiceStatus) : bool :=
  match a, b with
  | running, running | stopped, stopped
  | status_error, status_error | status_unknown, status_unknown => true
  | _, _ => false
  end.

Definition type_eqb (a b : ServiceType) : bool :=
  match a, b with
  | docker, docker | systemd, systemd | launchd, launchd
  | windows_service, windows_service | process, process => true
  | _, _ => false
  end.

Module Hooks.

(** [usePortsByProtocol]: the pair of its [tcp] and [udp] members. *)
Definition usePortsByProtocol (ports : list PortInfo.t)
  : list PortInfo.t * list PortInfo.t :=
  (filter (fun p => protocol_eqb (PortInfo.protocol p) tcp) ports,
   filter (fun p => protocol_eqb (PortInfo.protocol p) udp) ports).

Definition useIsPortInUse (port : N) (ports : list PortInfo.t) : bool :=
  existsb (fun p => N.eqb (PortInfo.port p) port) ports.

Definition useWellKnownPorts (ports : list PortInfo.t) : list PortInfo.t :=
  filter (fun p => N.ltb (PortInfo.port p) 1024) ports.

Definition useHighPorts (ports : list PortInfo.t) : list PortInfo.t :=
  filter (fun p => N.leb 1024 (PortInfo.port p)) ports.

Definition useServicesByStatus (status : ServiceStatus) (services : list Service.t)
  : list Service.t :=
  filter (fun s => status_eqb (Service.status s) status) services.

Definition useRunningServicesCount (services : list Service.t) : nat :=
  List.length (filter (fun s => status_eqb (Service.status s) running) services).

(** The object [useServicesGroupedByType] builds: its keys in the order
    they were first assigned, each with its array. *)
Definition Groups := list (ServiceType * list Service.t).

(** [groups[type]] *)
Fixpoint get_group (type : ServiceType) (groups : Groups) : option (list Service.t) :=
  match groups with
  | [] => None
  | (t, members) :: rest =>
      if type_eqb t type then Some members else get_group type rest
  end.

(** [groups[type] = members]: an existing key keeps its place, a new key
    comes last. *)
Fixpoint set_group (type : ServiceType) (members : list Service.t) (groups : Groups)
  : Groups :=
  match groups with
  | [] => [(type, members)]
  | (t, old) :: rest =>
      if type_eqb t type then (t, members) :: rest
      else (t, old) :: set_group type members rest
  end.

(** The reducer: [if (!groups[type]) groups[type] = []; groups[type].push(service)].
    An array, even empty, is truthy: the test is for a missing key. *)
Definition add_to_group (groups : Groups) (service : Service.t) : Groups :=
  let type := Service.service_type service in
  let groups :=
    match get_group type groups with
    | None => set_group type [] groups
    | Some _ => groups
    end in
  match get_group type groups with
  | Some members => set_group type (members ++ [service]) groups
  | None => groups
  end.

Definition useServicesGroupedByType (services : list Service.t) : Groups :=
  fold_left add_to_group services [].

End Hooks.

Module Dashboard.

Definition runningServices (services : list Service.t) : nat :=
  List.length (filter (fun s => status_eqb (Service.status s) running) services).
Definition stoppedServices (services : list Service.t) : nat :=
  List.length (filter (fun s => status_eqb (Service.status s) stopped) services).
Definition errorServices (services : list Service.t) : nat :=
  List.length (filter (fun s => status_eqb (Service.status s) status_error) services).
Definition occupiedPorts (ports : list PortInfo.t) : nat :=
  List.length (filter (fun p => port_status_eqb (PortInfo.status p) occupied) ports).

End Dashboard.

(** ** The search of the Ports page ([src/pages/Ports.tsx]) *)

Module PortsPage.

(** [s.includes(needle)]: [needle] occurs in [s]. *)
Fixpoint includes (s needle : string) : bool :=
  String.prefix needle s ||
  match s with
  | EmptyString => false
  | String _ rest => includes rest needle
  end.

Section Builtins.

(** [String.prototype.toLowerCase], a builtin of the language. *)
Variable toLowerCase : string -> string.

(** The predicate of [filteredPorts]:
    [port.port.toString().includes(searchTerm) ||
     port.process_name?.toLowerCase().includes(searchTerm.toLowerCase())]. *)
Definition matches (searchTerm : string) (port : PortInfo.t) : bool :=
  includes (decimal (PortInfo.port port)) searchTerm ||
  match PortInfo.process_name port with
  | Some name => includes (toLowerCase name) (toLowerCase searchTerm)
  | None => false
  end.

Definition filteredPorts (ports : list PortInfo.t) (searchTerm : string)
  : list PortInfo.t :=
  filter (matches searchTerm) ports.

End Builtins.
End PortsPage.

(** ** The actions of the Security page ([src/pages/Security.tsx]) *)

Module SecurityPage.

Record Page := mkPage {
  scanResult : option SecurityScanResult.t;
  llmAnalysis : option string;
  isScanning : bool;
  isAnalyzing : bool;
  error : option string
}.

Definition setScanResult (v : option SecurityScanResult.t) (p : Page) : Page :=
  mkPage v (llmAnalysis p) (isScanning p) (isAnalyzing p) (error p).
Definition setLlmAnalysis (v : option string) (p : Page) : Page :=
  mkPage (scanResult p) v (isScanning p) (isAnalyzing p) (error p).
Definition setIsScanning (v : bool) (p : Page) : Page :=
  mkPage (scanResult p) (llmAnalysis p) v (isAnalyzing p) (error p).
Definition setIsAnalyzing (v : bool) (p : Page) : Page :=
  mkPage (scanResult p) (llmAnalysis p) (isScanning p) v (error p).
Definition setError (v : option string) (p : Page) : Page :=
  mkPage (scanResult p) (llmAnalysis p) (isScanning p) (isAnalyzing p) v.

(** The object literal [runLlmAnalysis] maps a service to. *)
Definition analysis_projection (s : Service.t) : JSON :=
  JObject
    [ ("name", JString (Service.name s));
      ("ports", JArray (map JNumber (Service.ports s)));
      ("status", JString (Commands.status_string (Service.status s)));
      ("type", JString (Commands.type_string (Service.service_type s))) ].

(** [api.getSecurityAnalysis(servicesJson)] for the services of the store. *)
Definition analysis_request (services : list Service.t) : Commands.Invoke :=
  let servicesJson :=
    stringify (JArray (map analysis_projection (Commands.slice_to 30 services))) in
  Commands.mkInvoke "get_security_analysis" [("servicesJson", JString servicesJson)].

(** What [runLlmAnalysis] reads of a service. *)
Definition analysis_view (s : Service.t)
  : string * list N * ServiceStatus * ServiceType :=
  (Service.name s, Service.ports s, Service.status s, Service.service_type s).

Section Backend.

(** The backend's answers to [get_security_analysis], which depends on the
    request, to [discover_services] and to [scan_security]. *)
Variable analyze : Commands.Invoke -> Outcome string.
Variable discover : Outcome (list Service.t).
Variable scan : Outcome SecurityScanResult.t.

(** [runLlmAnalysis], on the services the page has read from the store. *)
Definition runLlmAnalysis (services : list Service.t) (page : Page) : Page :=
  let page := setError None (setIsAnalyzing true page) in
  match analyze (analysis_request services) with
  | Fulfilled analysis => setIsAnalyzing false (setLlmAnalysis (Some analysis) page)
  | Rejected err => setIsAnalyzing false (setError (Some err) page)
  end.

(** [runScan]: an action on the service store, through [fetchServices],
    that settles with the page it leaves.  The trace holds the calls of the
    service store; the call of [scan_security] is answered by [scan]. *)
Definition runScan (page : Page) : ServiceStore.Action Page :=
  fun state trace =>
    let page := setError None (setIsScanning true page) in
    match ServiceStore.fetchServices discover state trace with
    | (w, Fulfilled _) =>
        match scan with
        | Fulfilled result =>
            (w, Fulfilled (setIsScanning false (setScanResult (Some result) page)))
        | Rejected err =>
            (w, Fulfilled (setIsScanning false (setError (Some err) page)))
        end
    | (w, Rejected err) =>
        (w, Fulfilled (setIsScanning false (setError (Some err) page)))
    end.

End Backend.
End SecurityPage.

(** How an action of the port store that loads the table settles, given
    the backend's [reply]: it is fulfilled with [isLoading] false; on
    success the table is the reply and the error is cleared; on failure the
    table is kept and the error recorded. *)
Definition loads_table (state : PortState.t) (reply : Outcome (list PortInfo.t))
  (result : PortState.t * Outcome unit) : Prop :=
  snd result = Fulfilled tt /\
  PortState.isLoading (fst result) = false /\
  (forall found, reply = Fulfilled found ->
     PortState.ports (fst result) = found /\ PortState.error (fst result) = None) /\
  (forall e, reply = Rejected e ->
     PortState.ports (fst result) = PortState.ports state /\
     PortState.error (fst result) = Some e).

(** * Properties *)

(** ** The real-time event handler *)

Section RealtimeFacts.
Import ServiceState Realtime Examples.

Lemma step_added (state : ServiceState.t) (s : Service.t) :
  step state (ServiceAdded s) = set_services (services state ++ [s]) state.
Proof. reflexivity. Qed.

Lemma set_services_twice (l l' : list Service.t) (state : ServiceState.t) :
  set_services l (set_services l' state) = set_services l state.
Proof. reflexivity. Qed.

(** A run of [ServiceAdded] events appends their payloads, in order, and
    touches nothing else. *)
Lemma run_added (S : list Service.t) : forall state,
  run (map ServiceAdded S) state = set_services (services state ++ S) state.
Proof.
  induction S as [|s S IH]; intros state.
  - cbn. rewrite app_nil_r. now destruct state.
  - cbn [map run fold_left]. fold (run (map ServiceAdded S)).
    rewrite IH, step_added, set_services_twice.
    cbn [services set_services]. now rewrite <- app_assoc.
Qed.

(** C1.  From a store without services (whatever its other fields), and so
    from the initial store, the events [ServiceAdded s1], ..., [ServiceAdded sn]
    applied in order leave the same list of services, hence the same ids and
    the same field values, as the single event [ServicesDiscovered [s1; ...; sn]];
    from the initial store the two stores are equal as a whole. *)
Theorem added_one_by_one_equals_discovered (S : list Service.t) :
  (forall state,
     let empty := set_services [] state in
     services (run (map ServiceAdded S) empty) = S /\
     services (step empty (ServicesDiscovered S)) = S) /\
  ids (run (map ServiceAdded S) initial) = ids (step initial (ServicesDiscovered S)) /\
  run (map ServiceAdded S) initial = step initial (ServicesDiscovered S).
Proof.
  repeat split.
  - now rewrite run_added.
  - now rewrite run_added.
  - now rewrite run_added.
Qed.

Lemma map_id_update (f : Service.t -> Service.t) (sid : string) (l : list Service.t) :
  (forall s, Service.id (f s) = Service.id s) ->
  map Service.id
      (map (fun service => if String.eqb (Service.id service) sid then f service else service) l)
  = map Service.id l.
Proof.
  intros Hf. rewrite map_map. apply map_ext. intros s.
  now destruct (String.eqb (Service.id s) sid).
Qed.

(** Dropping services keeps their ids distinct. *)
Lemma distinct_ids_filter (keep : Service.t -> bool) (l : list Service.t) :
  distinct_ids l -> distinct_ids (filter keep l).
Proof.
  unfold distinct_ids. induction l as [|s l IH]; cbn; intros Hd; [exact Hd|].
  apply NoDup_cons_iff in Hd as [Hfresh Hd].
  destruct (keep s); cbn; [|now apply IH].
  apply NoDup_cons_iff. split; [|now apply IH].
  intros Hin. apply Hfresh.
  apply in_map_iff in Hin as (s' & Hid & Hin).
  apply in_map_iff. exists s'. split; [exact Hid|].
  now apply filter_In in Hin.
Qed.

(** C2, as stated, fails: a [ServiceAdded] whose payload carries an id of the
    store is appended all the same, and the id is then held twice. *)
Lemma added_known_id_breaks_distinct_ids :
  ~ (forall state event,
       distinct_ids (services state) ->
       distinct_payload event ->
       distinct_ids (services (step state event))).
Proof.
  intros H.
  specialize (H example_state (ServiceAdded (example_service "docker:web"))).
  cbn in H. unfold distinct_ids in H. cbn in H.
  assert (Hd : NoDup ["docker:web"]).
  { constructor; [intros []|constructor]. }
  specialize (H Hd I).
  inversion H as [|x xs Hnotin _]; subst.
  apply Hnotin. now left.
Qed.

(** C2, amended.  Pairwise-distinct ids are kept by every step of the
    handler under an event that is a [ServicesDiscovered] with distinct ids,
    a [ServiceAdded] whose id the store does not hold yet, or any
    [ServiceStatusChanged], [ServiceRemoved] or [ServicePortsChanged]. *)
Theorem step_keeps_distinct_ids (state : ServiceState.t) (event : ServiceEvent) :
  distinct_ids (services state) ->
  fresh_payload state event ->
  distinct_ids (services (step state event)).
Proof.
  unfold distinct_ids, step, ids.
  destruct event as [payload|sid old new|payload|sid|sid ps]; cbn; intros Hd Hev.
  - exact Hev.
  - now rewrite map_id_update.
  - rewrite map_app. cbn.
    apply NoDup_rev in Hd. rewrite <- (rev_involutive (map _ _ ++ _)).
    apply NoDup_rev. rewrite rev_app_distr. cbn.
    constructor; [|exact Hd].
    intros Hin. apply Hev. now apply in_rev.
  - now apply distinct_ids_filter.
  - now rewrite map_id_update.
Qed.

Lemma step_keeps_distinct_ids_witness :
  distinct_ids (services example_state) /\
  fresh_payload example_state (ServiceAdded (example_service "systemd:sshd")) /\
  distinct_ids
    (services (step example_state (ServiceAdded (example_service "systemd:sshd")))).
Proof.
  assert (Hd : distinct_ids (services example_state)).
  { unfold distinct_ids. cbn. constructor; [intros []|constructor]. }
  assert (Hf : fresh_payload example_state (ServiceAdded (example_service "systemd:sshd"))).
  { cbn. intros [H|[]]. discriminate H. }
  split; [exact Hd|split; [exact Hf|]].
  exact (step_keeps_distinct_ids example_state
           (ServiceAdded (example_service "systemd:sshd")) Hd Hf).
Defined.

(** C5.  A [ServiceStatusChanged] event keeps the list of services position
    by position: a service whose id is not the event's [service_id] is left
    as it is, one whose id is the event's gets the event's [new_status] and
    keeps every other field; the rest of the store is left alone and no
    action of the port store is started. *)
Theorem status_changed_touches_only_status
  (state : ServiceState.t) (sid : string) (old new : ServiceStatus) :
  let state' := step state (ServiceStatusChanged sid old new) in
  List.length (services state') = List.length (services state) /\
  (forall i s, nth_error (services state) i = Some s ->
     exists s', nth_error (services state') i = Some s' /\
       (Service.id s <> sid -> s' = s) /\
       (Service.id s = sid -> Service.status s' = new) /\
       Service.id s' = Service.id s /\
       Service.name s' = Service.name s /\
       Service.service_type s' = Service.service_type s /\
       Service.ports s' = Service.ports s /\
       Service.pid s' = Service.pid s /\
       Service.path s' = Service.path s /\
       Service.description s' = Service.description s /\
       Service.auto_start s' = Service.auto_start s /\
       Service.cpu_usage s' = Service.cpu_usage s /\
       Service.memory_bytes s' = Service.memory_bytes s /\
       Service.memory_percent s' = Service.memory_percent s) /\
  selectedService state' = selectedService state /\
  isLoading state' = isLoading state /\
  error state' = error state /\
  autoRefreshInterval state' = autoRefreshInterval state /\
  refreshIntervalMs state' = refreshIntervalMs state /\
  snd (handleServiceEvent (ServiceStatusChanged sid old new) state) = [].
Proof.
  cbn. split; [apply length_map|]. split; [|now repeat split].
  intros i s Hs.
  eexists. split; [apply map_nth_error; exact Hs|].
  destruct (String.eqb_spec (Service.id s) sid) as [Heq|Hne].
  - repeat split; try reflexivity. intros Hne. now elim Hne.
  - repeat split; try reflexivity. intros Heq. now elim Hne.
Qed.

Lemma negb_eqb_true (a b : string) : negb (String.eqb a b) = true <-> a <> b.
Proof.
  destruct (String.eqb_spec a b); cbn; split; intros H; congruence.
Qed.

(** C8.  A [ServiceRemoved] event keeps, in order, exactly the services whose
    id is not the removed one, each as it was; the selection is cleared when
    the selected service has the removed id and is left as it was otherwise;
    the rest of the store is left alone. *)
Theorem removed_frame (state : ServiceState.t) (sid : string) :
  let state' := step state (ServiceRemoved sid) in
  ~ In sid (ids state') /\
  (forall s, In s (services state') <-> In s (services state) /\ Service.id s <> sid) /\
  services state' =
    filter (fun s => negb (String.eqb (Service.id s) sid)) (services state) /\
  (forall sel, selectedService state = Some sel -> Service.id sel = sid ->
     selectedService state' = None) /\
  (forall sel, selectedService state = Some sel -> Service.id sel <> sid ->
     selectedService state' = Some sel) /\
  (selectedService state = None -> selectedService state' = None) /\
  isLoading state' = isLoading state /\
  error state' = error state /\
  autoRefreshInterval state' = autoRefreshInterval state /\
  refreshIntervalMs state' = refreshIntervalMs state.
Proof.
  cbn. unfold ids. cbn.
  split; [|split; [|split; [reflexivity|split; [|split; [|split]]]]].
  - intros Hin. apply in_map_iff in Hin as (s & Hid & Hin).
    apply filter_In in Hin as [_ Hne]. apply negb_eqb_true in Hne. congruence.
  - intros s. rewrite filter_In, negb_eqb_true. reflexivity.
  - intros sel -> <-. now rewrite String.eqb_refl.
  - intros sel -> Hne. now destruct (String.eqb_spec (Service.id sel) sid).
  - now intros ->.
  - now repeat split.
Qed.

End RealtimeFacts.

(** ** The free-port search and the port store *)

Section FreePortFacts.
Import PortCorrelator PortState.

Lemma is_occupied_false (occupied_set : list N) (port : N) :
  is_occupied occupied_set port = false -> ~ In port occupied_set.
Proof.
  unfold is_occupied. intros Hex Hin.
  assert (Ht : existsb (N.eqb port) occupied_set = true).
  { apply existsb_exists. exists port. split; [exact Hin|apply N.eqb_refl]. }
  congruence.
Qed.

(** The scan fails with [ExhaustedRange] only. *)
Lemma scan_rejects_ExhaustedRange (occupied_set : list N) (fuel : nat) :
  forall port count e,
    scan fuel port occupied_set count = Rejected e -> e = ExhaustedRange.
Proof.
  induction fuel as [|fuel IH]; intros port [|count] e; cbn;
    try discriminate; try congruence.
  destruct (is_occupied occupied_set port).
  - apply IH.
  - destruct (scan fuel (port + 1) occupied_set count) eqn:Hrec; [discriminate|].
    intros [= <-]. exact (IH _ _ _ Hrec).
Qed.

(** What a successful scan returns: [count] ports of its window, strictly
    ascending, none of them occupied. *)
Lemma scan_sound (occupied_set : list N) (fuel : nat) :
  forall port count found,
    scan fuel port occupied_set count = Fulfilled found ->
    List.length found = count /\
    Forall (fun p => (port <= p < port + N.of_nat fuel)%N) found /\
    StronglySorted N.lt found /\
    Forall (fun p => ~ In p occupied_set) found.
Proof.
  induction fuel as [|fuel IH]; intros port [|count] found; cbn [scan];
    try discriminate;
    try (intros [= <-]; repeat split; constructor).
  destruct (is_occupied occupied_set port) eqn:Hocc.
  - intros Hrec. destruct (IH _ _ _ Hrec) as (Hlen & Hwin & Hsort & Hfree).
    repeat split; auto.
    eapply Forall_impl; [|exact Hwin]. cbn. intros p Hp. lia.
  - destruct (scan fuel (port + 1) occupied_set count) as [rest|] eqn:Hrec;
      [|discriminate].
    intros [= <-].
    destruct (IH _ _ _ Hrec) as (Hlen & Hwin & Hsort & Hfree).
    split; [cbn; congruence|]. split; [|split].
    + constructor; [lia|]. eapply Forall_impl; [|exact Hwin]. cbn. intros p Hp. lia.
    + constructor; [exact Hsort|].
      eapply Forall_impl; [|exact Hwin]. cbn. intros p Hp. lia.
    + constructor; [now apply is_occupied_false|exact Hfree].
Qed.

Lemma find_free_ports_eq (occupied_set : list N) (n : nat) :
  find_free_ports occupied_set n = scan range_size first_port occupied_set n.
Proof. unfold find_free_ports. reflexivity. Qed.

Lemma range_size_value : N.of_nat range_size = 64512%N.
Proof. unfold range_size. rewrite N2Nat.id. reflexivity. Qed.

(** The search over the whole range keeps the promise of the specification,
    and stays within the range. *)
Lemma find_free_ports_keeps_promise (occupied_set : list N) (n : nat) :
  free_ports_promise occupied_set n (find_free_ports occupied_set n).
Proof.
  rewrite find_free_ports_eq.
  destruct (scan range_size first_port occupied_set n) as [found|e] eqn:Hscan;
    cbn [free_ports_promise].
  - destruct (scan_sound _ _ _ _ _ Hscan) as (Hlen & Hwin & Hsort & Hfree).
    split; [exact Hlen|]. split; [exact Hsort|]. split; [|exact Hfree].
    eapply Forall_impl; [|exact Hwin]. cbn beta.
    intros p [Hfrom _]. exact Hfrom.
  - exact (scan_rejects_ExhaustedRange _ _ _ _ _ Hscan).
Qed.

Lemma find_free_ports_below_max (occupied_set : list N) (n : nat) (found : list N) :
  find_free_ports occupied_set n = Fulfilled found ->
  Forall (fun p => (p <= max_port)%N) found.
Proof.
  rewrite find_free_ports_eq. intros Hscan.
  destruct (scan_sound _ _ _ _ _ Hscan) as (_ & Hwin & _).
  eapply Forall_impl; [|exact Hwin]. cbn beta.
  intros p [_ Hto]. rewrite range_size_value in Hto.
  unfold first_port in Hto. unfold max_port. lia.
Qed.

(** With nothing occupied, the range holds 64512 ports: one more cannot be
    found. *)
Lemma find_free_ports_exhausted :
  find_free_ports [] (N.to_nat 64513) = Rejected ExhaustedRange.
Proof. vm_compute. reflexivity. Qed.

(** What the store makes of a failure of the backend. *)
Lemma findFreePorts_on_rejection
  (backend : nat -> Outcome (list N)) (n : nat) (state : PortState.t) (e : string) :
  backend n = Rejected e ->
  PortStore.findFreePorts backend n state = (set_error (Some e) state, Fulfilled []).
Proof.
  intros Hrej. unfold PortStore.findFreePorts. now rewrite Hrej.
Qed.

(** C3, as stated, fails: when the search of the backend is exhausted, the
    store's [findFreePorts] does not fail; its caller gets the empty list. *)
Lemma findFreePorts_hides_exhausted_range :
  ~ (forall occupied_set n state,
       free_ports_promise occupied_set n
         (snd (PortStore.findFreePorts (find_free_ports occupied_set) n state))).
Proof.
  intros H. specialize (H [] (N.to_nat 64513) PortState.initial).
  pose proof (findFreePorts_on_rejection (find_free_ports []) (N.to_nat 64513)
                PortState.initial ExhaustedRange find_free_ports_exhausted) as E.
  rewrite E in H.
  destruct H as [Hlen _].
  apply (f_equal N.of_nat) in Hlen. rewrite N2Nat.id in Hlen. discriminate Hlen.
Qed.

(** C3, amended.  The store's [findFreePorts(n)] never fails.  When the
    search of the backend succeeds, the caller gets its result, [n] strictly
    ascending ports, all at least 1024 and at most 65535, none in the
    occupied set, and the store is left as it was.  When the search fails,
    which it does with [ExhaustedRange] only, the failure is recorded in the
    [error] field of the store and the caller gets the empty list. *)
Theorem findFreePorts_result_or_recorded_failure
  (occupied_set : list N) (n : nat) (state : PortState.t) :
  let backend := find_free_ports occupied_set in
  let result := PortStore.findFreePorts backend n state in
  (exists found,
     backend n = Fulfilled found /\
     result = (state, Fulfilled found) /\
     free_ports_promise occupied_set n (Fulfilled found) /\
     Forall (fun p => (p <= max_port)%N) found) \/
  (backend n = Rejected ExhaustedRange /\
   result = (set_error (Some ExhaustedRange) state, Fulfilled []) /\
   error (fst result) = Some ExhaustedRange).
Proof.
  cbn zeta. unfold PortStore.findFreePorts.
  pose proof (find_free_ports_keeps_promise occupied_set n) as Hp.
  destruct (find_free_ports occupied_set n) as [found|e] eqn:Hb.
  - left. exists found.
    split; [reflexivity|]. split; [reflexivity|]. split; [exact Hp|].
    exact (find_free_ports_below_max _ _ _ Hb).
  - right. cbn [free_ports_promise] in Hp. subst e.
    split; [reflexivity|]. split; reflexivity.
Qed.

(** Whatever the backend answers, the store's [findFreePorts] is fulfilled. *)
Lemma findFreePorts_never_rejects
  (backend : nat -> Outcome (list N)) (n : nat) (state : PortState.t) :
  exists found, snd (PortStore.findFreePorts backend n state) = Fulfilled found.
Proof.
  unfold PortStore.findFreePorts. destruct (backend n); cbn; eauto.
Qed.

End FreePortFacts.

(** ** The control actions of the service store *)

Section ControlFacts.
Import ServiceState ServiceStore Examples.

Variable discover : Outcome (list Service.t).
Variable control : ApiCall -> Outcome unit.

(** [killService] on an id the store does not hold: no backend call, no
    error recorded, no failure. *)
Lemma killService_unknown_id (state : ServiceState.t) (serviceId : string) :
  find_service serviceId (services state) = None ->
  exec (killService discover control serviceId) state = ((state, []), Fulfilled tt).
Proof.
  intros Hfind. unfold exec, killService, try_catch, bind, get. cbn.
  now rewrite Hfind.
Qed.

(** [toggleAutostart] on an id the store does not hold: no backend call, and
    the error is recorded. *)
Lemma toggleAutostart_unknown_id
  (state : ServiceState.t) (serviceId : string) (enable : bool) :
  find_service serviceId (services state) = None ->
  exec (toggleAutostart discover control serviceId enable) state
  = ((set_error (Some "Service nicht gefunden"%string) state, []), Fulfilled tt).
Proof.
  intros Hfind. unfold exec, toggleAutostart, bind, get. cbn.
  now rewrite Hfind.
Qed.

(** [startService] when the backend rejects the command (say with
    [NotFound]): one call, the error recorded, no second attempt. *)
Lemma startService_rejected (state : ServiceState.t) (serviceId e : string) :
  control (StartService serviceId) = Rejected e ->
  exec (startService discover control serviceId) state
  = ((set_error (Some e) state, [StartService serviceId]), Fulfilled tt).
Proof.
  intros Hrej. unfold exec, startService, try_catch, bind, api_control. cbn.
  now rewrite Hrej.
Qed.

Lemma stopService_rejected (state : ServiceState.t) (serviceId e : string) :
  control (StopService serviceId) = Rejected e ->
  exec (stopService discover control serviceId) state
  = ((set_error (Some e) state, [StopService serviceId]), Fulfilled tt).
Proof.
  intros Hrej. unfold exec, stopService, try_catch, bind, api_control. cbn.
  now rewrite Hrej.
Qed.

Lemma restartService_rejected (state : ServiceState.t) (serviceId e : string) :
  control (RestartService serviceId) = Rejected e ->
  exec (restartService discover control serviceId) state
  = ((set_error (Some e) state, [RestartService serviceId]), Fulfilled tt).
Proof.
  intros Hrej. unfold exec, restartService, try_catch, bind, api_control. cbn.
  now rewrite Hrej.
Qed.

(** C6, on the code.  [killService] with an id the registry does not hold,
    on the initial store and on a store with one other service: the store is
    left as it was, its [error] stays [null], the backend is not called and
    the promise is fulfilled, so nothing is reported; [toggleAutostart] on
    the same input records "Service nicht gefunden". *)
Theorem killService_unknown_id_reports_nothing :
  exec (killService discover control "ghost") initial = ((initial, []), Fulfilled tt) /\
  exec (killService discover control "ghost") example_state
    = ((example_state, []), Fulfilled tt) /\
  error (fst (fst (exec (killService discover control "ghost") example_state))) = None /\
  error (fst (fst (exec (toggleAutostart discover control "ghost" true) example_state)))
    = Some "Service nicht gefunden"%string.
Proof.
  repeat split; reflexivity.
Qed.

End ControlFacts.

(** ** The request for recommendations *)

Section CommandFacts.
Import Commands.

(** C9.  The request of [getServiceRecommendations] is one invoke of
    [get_service_recommendations] whose only argument is the serialization
    of an array that holds, position by position, the projection of the
    first 50 services and nothing beyond; a projection is an object with the
    members [id], [name], [status], [type], [ports] and [auto_start], in
    that order, taken from the service; two lists of services with the same
    first 50 elements make the same request. *)
Theorem recommendations_request_first_fifty (services : list Service.t) :
  let request := getServiceRecommendations services in
  let sent := map project (slice_to 50 services) in
  cmd request = "get_service_recommendations" /\
  args request = [("servicesJson", JString (stringify (JArray sent)))] /\
  List.length sent = Nat.min 50 (List.length services) /\
  (forall i s, i < 50 -> nth_error services i = Some s ->
     nth_error sent i = Some (project s)) /\
  (forall i, 50 <= i -> nth_error sent i = None) /\
  (forall s, exists members,
     project s = JObject members /\
     map fst members = ["id"; "name"; "status"; "type"; "ports"; "auto_start"] /\
     map snd members =
       [ JString (Service.id s); JString (Service.name s);
         JString (status_string (Service.status s));
         JString (type_string (Service.service_type s));
         JArray (map JNumber (Service.ports s));
         JBool (Service.auto_start s) ]) /\
  (forall services',
     firstn 50 services' = firstn 50 services ->
     getServiceRecommendations services' = request) /\
  getServiceRecommendations (firstn 50 services) = request.
Proof.
  cbn zeta. unfold getServiceRecommendations, recommendations_payload, slice_to.
  split; [reflexivity|]. split; [reflexivity|].
  split; [now rewrite length_map, length_firstn|].
  split; [|split; [|split; [|split]]].
  - intros i s Hi Hs. rewrite nth_error_map, nth_error_firstn.
    destruct (Nat.ltb_spec i 50) as [_|Hge]; [|lia]. now rewrite Hs.
  - intros i Hi. rewrite nth_error_map, nth_error_firstn.
    destruct (Nat.ltb_spec i 50) as [Hlt|_]; [lia|reflexivity].
  - intros s. eexists. split; [reflexivity|]. split; reflexivity.
  - intros services' Heq. cbn [cmd args]. now rewrite Heq.
  - now rewrite firstn_firstn.
Qed.

End CommandFacts.

(** ** The history of the Performance page *)

Section HistoryFacts.
Import Performance Examples.

Lemma length_slice_last {A} (n : nat) (l : list A) :
  0 < n -> List.length (slice_last n l) = Nat.min (List.length l) n.
Proof.
  destruct n as [|n]; [lia|]. intros _. cbn [slice_last].
  rewrite length_skipn. lia.
Qed.

(** Truncating before and after an append is truncating after it. *)
Lemma slice_last_snoc {A} (n : nat) (l : list A) (x : A) :
  0 < n -> slice_last n (slice_last n l ++ [x]) = slice_last n (l ++ [x]).
Proof.
  destruct n as [|n]; [lia|]. intros _. cbn [slice_last].
  rewrite !length_app, length_skipn. cbn [List.length].
  destruct (Nat.le_gt_cases (List.length l) (S n)) as [Hle|Hgt].
  - replace (List.length l - S n) with 0 by lia. cbn [skipn].
    now replace (List.length l - 0 + 1 - S n) with (List.length l + 1 - S n) by lia.
  - remember (List.length l - S n) as k eqn:Hk.
    replace (List.length l - k + 1 - S n) with 1 by lia.
    replace (List.length l + 1 - S n) with (1 + k) by lia.
    rewrite !skipn_app, length_skipn, skipn_skipn.
    replace (1 - (List.length l - k)) with 0 by lia.
    replace (1 + k - List.length l) with 0 by lia.
    reflexivity.
Qed.

Lemma ticks_snoc (replies : list (Outcome SystemStats.t)) (r : Outcome SystemStats.t)
  (page : Page) :
  ticks (replies ++ [r]) page = fetchStats r (ticks replies page).
Proof. unfold ticks. now rewrite fold_left_app. Qed.

Lemma successes_snoc (replies : list (Outcome SystemStats.t)) (r : Outcome SystemStats.t) :
  successes (replies ++ [r]) =
  successes replies ++ match r with Fulfilled s => [s] | Rejected _ => [] end.
Proof. unfold successes. rewrite flat_map_app. cbn. now rewrite app_nil_r. Qed.

(** The history after a run: the last [MAX_HISTORY_POINTS] values of the
    successful ticks, series by series. *)
Lemma history_after_ticks (replies : list (Outcome SystemStats.t)) :
  history (ticks replies initial) =
  mkHistory
    (slice_last MAX_HISTORY_POINTS (map SystemStats.timestamp (successes replies)))
    (slice_last MAX_HISTORY_POINTS
       (map (fun s => CpuStats.usage_percent (SystemStats.cpu s)) (successes replies)))
    (slice_last MAX_HISTORY_POINTS
       (map (fun s => MemoryStats.usage_percent (SystemStats.memory s)) (successes replies)))
    (slice_last MAX_HISTORY_POINTS (map first_gpu_usage (successes replies))).
Proof.
  induction replies as [|r replies IH] using rev_ind; [reflexivity|].
  rewrite ticks_snoc, successes_snoc.
  destruct r as [s|e]; cbn [fetchStats history].
  - rewrite IH. unfold push_sample. cbn [timestamps cpuUsage memoryUsage gpuUsage].
    rewrite !map_app. cbn [map].
    assert (Hpos : 0 < MAX_HISTORY_POINTS) by (unfold MAX_HISTORY_POINTS; lia).
    now rewrite !(slice_last_snoc _ _ _ Hpos).
  - now rewrite app_nil_r.
Qed.

Lemma successes_fulfilled (samples : list SystemStats.t) :
  successes (map Fulfilled samples) = samples.
Proof.
  induction samples as [|s samples IH]; [reflexivity|].
  cbn. unfold successes in IH. now rewrite IH.
Qed.

Lemma slice_last_360 {A} (l : list A) :
  slice_last MAX_HISTORY_POINTS l = skipn (List.length l - 360) l.
Proof. reflexivity. Qed.

Lemma skipn_1_map_tl {A B} (f : A -> B) (l : list A) :
  skipn 1 (map f l) = map f (tl l).
Proof. now destruct l. Qed.

(** C4.  After [k] successful ticks from the initial page, each of the four
    series holds [min k 360] points, the values of the last [min k 360]
    ticks in arrival order; after 361 ticks that is 360 points, the values
    of ticks 2 to 361, the value of tick 1 being gone. *)
Theorem history_holds_last_360_samples (samples : list SystemStats.t) :
  let k := List.length samples in
  let h := history (ticks (map Fulfilled samples) initial) in
  (List.length (timestamps h) = Nat.min k 360 /\
   List.length (cpuUsage h) = Nat.min k 360 /\
   List.length (memoryUsage h) = Nat.min k 360 /\
   List.length (gpuUsage h) = Nat.min k 360) /\
  (timestamps h = skipn (k - 360) (map SystemStats.timestamp samples) /\
   cpuUsage h =
     skipn (k - 360) (map (fun s => CpuStats.usage_percent (SystemStats.cpu s)) samples) /\
   memoryUsage h =
     skipn (k - 360)
       (map (fun s => MemoryStats.usage_percent (SystemStats.memory s)) samples) /\
   gpuUsage h = skipn (k - 360) (map first_gpu_usage samples)) /\
  (k = 361 ->
   List.length (timestamps h) = 360 /\
   timestamps h = map SystemStats.timestamp (tl samples) /\
   cpuUsage h = map (fun s => CpuStats.usage_percent (SystemStats.cpu s)) (tl samples) /\
   memoryUsage h =
     map (fun s => MemoryStats.usage_percent (SystemStats.memory s)) (tl samples) /\
   gpuUsage h = map first_gpu_usage (tl samples)).
Proof.
  cbn zeta. rewrite history_after_ticks, successes_fulfilled.
  cbn [timestamps cpuUsage memoryUsage gpuUsage].
  rewrite !slice_last_360, !length_map.
  split; [|split].
  - rewrite !length_skipn, !length_map. lia.
  - now repeat split.
  - intros Hk. rewrite Hk. replace (361 - 360) with 1 by lia.
    rewrite !skipn_1_map_tl, length_map.
    split; [|now repeat split].
    destruct samples as [|s samples]; cbn [List.length tl] in *; lia.
Qed.

(** Failed ticks leave the history alone: it is that of the successful ticks
    of the run. *)
Lemma history_ignores_failed_ticks (replies : list (Outcome SystemStats.t)) :
  history (ticks replies initial) =
  history (ticks (map Fulfilled (successes replies)) initial).
Proof. now rewrite !history_after_ticks, successes_fulfilled. Qed.

(** The scenario of the specification, run: 361 ticks with timestamps 1 to
    361 leave the 360 timestamps 2 to 361. *)
Example history_after_361_ticks :
  timestamps (history (ticks example_run initial)) = map N.of_nat (seq 2 360) /\
  List.length (cpuUsage (history (ticks example_run initial))) = 360 /\
  List.length (memoryUsage (history (ticks example_run initial))) = 360 /\
  List.length (gpuUsage (history (ticks example_run initial))) = 360.
Proof. vm_compute. now repeat split. Qed.

End HistoryFacts.

(** ** The issues of a security scan *)

Section SecurityFacts.
Import Security SecurityEngine.

Lemma severity_eqb_eq (a b : SecuritySeverity) : severity_eqb a b = true <-> a = b.
Proof. destruct a, b; cbn; split; intros H; congruence. Qed.

Lemma count_severity_count_occ (X : SecuritySeverity) (issues : list SecurityIssue.t) :
  count_severity X issues =
  N.of_nat (count_occ severity_eq_dec (map SecurityIssue.severity issues) X).
Proof.
  unfold count_severity. f_equal.
  induction issues as [|i issues IH]; [reflexivity|].
  cbn [filter map count_occ].
  destruct (severity_eq_dec (SecurityIssue.severity i) X) as [Heq|Hne].
  - apply severity_eqb_eq in Heq. rewrite Heq. cbn. now rewrite IH.
  - destruct (severity_eqb (SecurityIssue.severity i) X) eqn:Hb; [|exact IH].
    apply severity_eqb_eq in Hb. contradiction.
Qed.

(** C7.  In the result of a scan, each of [critical_count], [high_count],
    [medium_count] and [low_count] is the number of issues of the result's
    own list that have that severity. *)
Theorem scan_result_counts_match_issues
  (issues : list SecurityIssue.t) (scan_timestamp services_scanned ports_scanned : N) :
  let r := scan_result issues scan_timestamp services_scanned ports_scanned in
  let severities := map SecurityIssue.severity (SecurityScanResult.issues r) in
  SecurityScanResult.critical_count r
    = N.of_nat (count_occ severity_eq_dec severities critical) /\
  SecurityScanResult.high_count r
    = N.of_nat (count_occ severity_eq_dec severities high) /\
  SecurityScanResult.medium_count r
    = N.of_nat (count_occ severity_eq_dec severities medium) /\
  SecurityScanResult.low_count r
    = N.of_nat (count_occ severity_eq_dec severities low).
Proof.
  cbn. now rewrite !count_severity_count_occ.
Qed.

Lemma filter_split_permutation {A} (p q : A -> bool) (l : list A) :
  (forall a, q a = negb (p a)) ->
  Permutation (filter p l ++ filter q l) l.
Proof.
  intros Hq. induction l as [|a l IH]; [constructor|].
  cbn [filter]. rewrite Hq. destruct (p a); cbn [negb app].
  - now constructor.
  - symmetry. apply Permutation_cons_app. now symmetry.
Qed.

Lemma high_group_complement (s : SecuritySeverity) :
  severity_eqb s medium || severity_eqb s low || severity_eqb s info
  = negb (severity_eqb s critical || severity_eqb s high).
Proof. now destruct s. Qed.

(** C10.  The two groups of the Security page split the issues of a
    result: an issue is in the first group exactly when it is an issue of
    the result of severity critical or high, in the second exactly when it
    is one of severity medium, low or info; no issue is in both, and the
    two groups together are the issues of the result, each as often as it
    occurs there.  Without a result both groups are empty. *)
Theorem issue_groups_partition (r : SecurityScanResult.t) :
  let issues := SecurityScanResult.issues r in
  let upper := criticalAndHigh (Some r) in
  let lower := mediumAndLow (Some r) in
  (forall i, In i upper <->
     In i issues /\
     (SecurityIssue.severity i = critical \/ SecurityIssue.severity i = high)) /\
  (forall i, In i lower <->
     In i issues /\
     (SecurityIssue.severity i = medium \/ SecurityIssue.severity i = low \/
      SecurityIssue.severity i = info)) /\
  (forall i, ~ (In i upper /\ In i lower)) /\
  (forall i, In i issues -> In i upper \/ In i lower) /\
  Permutation (upper ++ lower) issues /\
  List.length upper + List.length lower = List.length issues /\
  criticalAndHigh None = [] /\ mediumAndLow None = [].
Proof.
  cbn zeta. unfold criticalAndHigh, mediumAndLow.
  assert (Hperm := filter_split_permutation
            (fun i => severity_eqb (SecurityIssue.severity i) critical
                      || severity_eqb (SecurityIssue.severity i) high)
            (fun i => severity_eqb (SecurityIssue.severity i) medium
                      || severity_eqb (SecurityIssue.severity i) low
                      || severity_eqb (SecurityIssue.severity i) info)
            (SecurityScanResult.issues r)
            (fun i => high_group_complement (SecurityIssue.severity i))).
  split; [|split; [|split; [|split; [|split; [exact Hperm|split]]]]].
  - intros i. rewrite filter_In, orb_true_iff, !severity_eqb_eq. reflexivity.
  - intros i. rewrite filter_In, !orb_true_iff, !severity_eqb_eq. tauto.
  - intros i [Hu Hl]. apply filter_In in Hu as [_ Hu]. apply filter_In in Hl as [_ Hl].
    rewrite high_group_complement, Hu in Hl. discriminate Hl.
  - intros i Hi. rewrite !filter_In, high_group_complement.
    destruct (severity_eqb (SecurityIssue.severity i) critical
              || severity_eqb (SecurityIssue.severity i) high); cbn; tauto.
  - rewrite <- length_app. now apply Permutation_length.
  - now split.
Qed.

End SecurityFacts.

(** * Further properties of the code *)

(** ** The event handler: frames, unknown ids, round trips and runs *)

Section RealtimeMoreFacts.
Import ServiceState Realtime RealtimeRuns Examples.

Lemma set_services_same (state : ServiceState.t) :
  set_services (services state) state = state.
Proof. now destruct state. Qed.

Lemma id_eqb_false_of_fresh (sid : string) (l : list Service.t) :
  ~ In sid (map Service.id l) ->
  forall s, In s l -> String.eqb (Service.id s) sid = false.
Proof.
  intros Hfresh s Hin. apply String.eqb_neq. intros Heq. apply Hfresh.
  rewrite <- Heq. now apply in_map.
Qed.

Lemma update_unknown_id (f : Service.t -> Service.t) (sid : string) (l : list Service.t) :
  ~ In sid (map Service.id l) ->
  map (fun service => if String.eqb (Service.id service) sid then f service else service) l = l.
Proof.
  intros Hfresh. rewrite <- (map_id l) at 2. apply map_ext_in.
  intros s Hin. now rewrite (id_eqb_false_of_fresh sid l Hfresh s Hin).
Qed.

Lemma remove_unknown_id (sid : string) (l : list Service.t) :
  ~ In sid (map Service.id l) ->
  filter (fun service => negb (String.eqb (Service.id service) sid)) l = l.
Proof.
  intros Hfresh. induction l as [|s l IH]; [reflexivity|].
  cbn [filter]. rewrite (id_eqb_false_of_fresh sid (s :: l) Hfresh s (or_introl eq_refl)).
  cbn [negb]. f_equal. apply IH. intros Hin. apply Hfresh. now right.
Qed.


(** X2.  An event about an id the store does not hold changes no service:
    a [ServiceStatusChanged] or a [ServicePortsChanged] leaves the whole
    store as it is, a [ServiceRemoved] leaves the list of services as it
    is. *)
Theorem unknown_id_changes_no_service
  (state : ServiceState.t) (sid : string)
  (old new : ServiceStatus) (ps : list N) :
  ~ In sid (ids state) ->
  step state (ServiceStatusChanged sid old new) = state /\
  step state (ServicePortsChanged sid ps) = state /\
  services (step state (ServiceRemoved sid)) = services state.
Proof.
  unfold ids, step. cbn. intros Hfresh.
  rewrite !update_unknown_id, remove_unknown_id by exact Hfresh.
  now rewrite set_services_same.
Qed.

Lemma unknown_id_changes_no_service_witness :
  ~ In "systemd:sshd" (ids example_state) /\
  step example_state (ServiceStatusChanged "systemd:sshd" running stopped) = example_state.
Proof.
  assert (Hfresh : ~ In "systemd:sshd" (ids example_state)).
  { cbn. intros [H|[]]. discriminate H. }
  split; [exact Hfresh|].
  exact (proj1 (unknown_id_changes_no_service example_state "systemd:sshd"
                  running stopped [] Hfresh)).
Defined.

(** X3.  Adding a service whose id the store does not hold and then
    removing that id gives back the list of services the store had. *)
Theorem added_then_removed_round_trip (state : ServiceState.t) (s : Service.t) :
  ~ In (Service.id s) (ids state) ->
  services (step (step state (ServiceAdded s)) (ServiceRemoved (Service.id s)))
  = services state.
Proof.
  unfold ids, step. cbn. intros Hfresh.
  rewrite filter_app, remove_unknown_id by exact Hfresh.
  cbn. rewrite String.eqb_refl. cbn. apply app_nil_r.
Qed.

Lemma added_then_removed_round_trip_witness :
  ~ In (Service.id (example_service "systemd:sshd")) (ids example_state) /\
  services (step (step example_state (ServiceAdded (example_service "systemd:sshd")))
                 (ServiceRemoved "systemd:sshd"))
  = services example_state.
Proof.
  assert (Hfresh : ~ In (Service.id (example_service "systemd:sshd")) (ids example_state)).
  { cbn. intros [H|[]]. discriminate H. }
  split; [exact Hfresh|].
  exact (added_then_removed_round_trip example_state (example_service "systemd:sshd") Hfresh).
Defined.

(** The ids of the store after a step, read off the ids before it. *)
Lemma ids_after_step (state : ServiceState.t) (event : ServiceEvent) :
  ids (step state event) =
  match event with
  | ServicesDiscovered payload => map Service.id payload
  | ServiceAdded payload => ids state ++ [Service.id payload]
  | ServiceRemoved sid => filter (fun i => negb (String.eqb i sid)) (ids state)
  | ServiceStatusChanged _ _ _ | ServicePortsChanged _ _ => ids state
  end.
Proof.
  unfold ids, step.
  destruct event as [payload|sid old new|payload|sid|sid ps]; cbn.
  - reflexivity.
  - now apply map_id_update.
  - now rewrite map_app.
  - induction (services state) as [|s l IH]; [reflexivity|].
    cbn. destruct (String.eqb (Service.id s) sid); cbn; now rewrite IH.
  - now apply map_id_update.
Qed.

Lemma NoDup_snoc_fresh (l : list string) (x : string) :
  NoDup l -> ~ In x l -> NoDup (l ++ [x]).
Proof.
  intros Hd Hx. induction Hd as [|y l Hy Hd IH]; cbn.
  - constructor; [intros []|constructor].
  - constructor.
    + rewrite in_app_iff. cbn. intros [Hin|[Heq|[]]]; [now apply Hy|].
      apply Hx. now left.
    + apply IH. intros Hin. apply Hx. now right.
Qed.

(** X4.  Pairwise-distinct ids are an invariant of whole runs of the
    handler: from a store with distinct ids, a run in which every
    [ServiceAdded] carries an id the store does not hold when the event
    arrives, and every [ServicesDiscovered] carries distinct ids, ends in a
    store with distinct ids. *)
Theorem run_keeps_distinct_ids (events : list ServiceEvent) :
  forall state,
    distinct_ids (services state) ->
    fresh_run state events ->
    distinct_ids (services (run events state)).
Proof.
  induction events as [|event events IH]; intros state Hd Hrun; [exact Hd|].
  destruct Hrun as [Hfresh Hrun]. cbn [run fold_left]. apply IH; [|exact Hrun].
  change (NoDup (ids (step state event))). rewrite ids_after_step.
  change (NoDup (ids state)) in Hd.
  destruct event as [payload|sid old new|payload|sid|sid ps]; cbn in Hfresh.
  - exact Hfresh.
  - exact Hd.
  - now apply NoDup_snoc_fresh.
  - now apply NoDup_filter.
  - exact Hd.
Qed.

Lemma run_keeps_distinct_ids_witness :
  distinct_ids (services example_state) /\
  fresh_run example_state
    [ServiceAdded (example_service "systemd:sshd");
     ServiceStatusChanged "docker:web" running stopped;
     ServiceRemoved "docker:web";
     ServiceAdded (example_service "docker:web")] /\
  distinct_ids
    (services
       (run [ServiceAdded (example_service "systemd:sshd");
             ServiceStatusChanged "docker:web" running stopped;
             ServiceRemoved "docker:web";
             ServiceAdded (example_service "docker:web")] example_state)).
Proof.
  assert (Hd : distinct_ids (services example_state)).
  { unfold distinct_ids. cbn. constructor; [intros []|constructor]. }
  assert (Hrun : fresh_run example_state
    [ServiceAdded (example_service "systemd:sshd");
     ServiceStatusChanged "docker:web" running stopped;
     ServiceRemoved "docker:web";
     ServiceAdded (example_service "docker:web")]).
  { cbn. repeat split.
    - intros [H|[]]. discriminate H.
    - intros [H|[]]. discriminate H. }
  split; [exact Hd|split; [exact Hrun|]].
  exact (run_keeps_distinct_ids _ example_state Hd Hrun).
Defined.

(** X5.  The handler changes the selection in one case only: a
    [ServiceRemoved] of the id of the selected service clears it.  So a
    [ServiceStatusChanged] for the selected service leaves the selection
    with the old status while the service in the list gets the new one. *)
Theorem selection_changes_only_by_removal :
  (forall state event,
     selectedService (step state event) = selectedService state \/
     exists sel,
       event = ServiceRemoved (Service.id sel) /\
       selectedService state = Some sel /\
       selectedService (step state event) = None) /\
  (forall state sel old new,
     selectedService state = Some sel ->
     let state' := step state (ServiceStatusChanged (Service.id sel) old new) in
     selectedService state' = Some sel /\
     forall s, In s (services state') -> Service.id s = Service.id sel ->
               Service.status s = new).
Proof.
  split.
  - intros state [payload|sid old new|payload|sid|sid ps]; cbn; auto.
    destruct (selectedService state) as [sel|] eqn:Hsel; [|now left].
    destruct (String.eqb_spec (Service.id sel) sid) as [Heq|Hne]; [|now left].
    right. exists sel. now rewrite Heq.
  - intros state sel old new Hsel. cbn. split; [exact Hsel|].
    intros s Hin Hid. apply in_map_iff in Hin as (s0 & Hs0 & _).
    destruct (String.eqb_spec (Service.id s0) (Service.id sel)) as [Heq|Hne];
      subst s; cbn in *; [reflexivity|contradiction].
Qed.

Lemma filter_swap {A} (p q : A -> bool) (l : list A) :
  filter p (filter q l) = filter q (filter p l).
Proof.
  induction l as [|a l IH]; [reflexivity|].
  cbn. destruct (q a) eqn:Hq, (p a) eqn:Hp; cbn; rewrite ?Hq, ?Hp, IH; reflexivity.
Qed.

Lemma filter_twice {A} (p : A -> bool) (l : list A) :
  filter p (filter p l) = filter p l.
Proof.
  induction l as [|a l IH]; [reflexivity|].
  cbn. destruct (p a) eqn:Hp; cbn; rewrite ?Hp, IH; reflexivity.
Qed.

(** X6.  Removals compose: two [ServiceRemoved] events give the same store
    in either order, and a [ServiceRemoved] applied twice gives the store
    it gives applied once. *)
Theorem removals_commute_and_repeat (state : ServiceState.t) (a b : string) :
  step (step state (ServiceRemoved a)) (ServiceRemoved b)
  = step (step state (ServiceRemoved b)) (ServiceRemoved a) /\
  step (step state (ServiceRemoved a)) (ServiceRemoved a)
  = step state (ServiceRemoved a).
Proof.
  unfold step, handleServiceEvent, set_services, set_selectedService.
  destruct state as [l sel ld err ari rim]. cbn. split.
  - rewrite (filter_swap (fun s => negb (String.eqb (Service.id s) b))).
    f_equal.
    destruct sel as [sel|]; [|reflexivity].
    destruct (String.eqb (Service.id sel) a) eqn:Ha,
             (String.eqb (Service.id sel) b) eqn:Hb; rewrite ?Ha, ?Hb; reflexivity.
  - rewrite filter_twice. f_equal.
    destruct sel as [sel|]; [|reflexivity].
    destruct (String.eqb (Service.id sel) a) eqn:Ha; rewrite ?Ha; reflexivity.
Qed.

(** X7.  Status changes compose: of two [ServiceStatusChanged] events for
    the same id the later one decides, and two for different ids give the
    same store in either order. *)
Theorem status_changes_compose
  (state : ServiceState.t) (a b : string) (o1 n1 o2 n2 : ServiceStatus) :
  step (step state (ServiceStatusChanged a o1 n1)) (ServiceStatusChanged a o2 n2)
  = step state (ServiceStatusChanged a o2 n2) /\
  (a <> b ->
   step (step state (ServiceStatusChanged a o1 n1)) (ServiceStatusChanged b o2 n2)
   = step (step state (ServiceStatusChanged b o2 n2)) (ServiceStatusChanged a o1 n1)).
Proof.
  unfold step, handleServiceEvent, set_services.
  destruct state as [l sel ld err ari rim]. cbn. split.
  - f_equal. rewrite map_map. apply map_ext. intros s.
    destruct (String.eqb (Service.id s) a) eqn:Ha; cbn; now rewrite Ha.
  - intros Hab. f_equal. rewrite !map_map. apply map_ext. intros s.
    destruct (String.eqb_spec (Service.id s) a) as [Ha|Ha],
             (String.eqb_spec (Service.id s) b) as [Hb|Hb]; cbn.
    + congruence.
    + destruct (String.eqb_spec (Service.id s) a), (String.eqb_spec (Service.id s) b);
        congruence.
    + destruct (String.eqb_spec (Service.id s) a), (String.eqb_spec (Service.id s) b);
        congruence.
    + destruct (String.eqb_spec (Service.id s) a), (String.eqb_spec (Service.id s) b);
        congruence.
Qed.

Lemma step_services_congruence (event : ServiceEvent) (st1 st2 : ServiceState.t) :
  services st1 = services st2 ->
  services (step st1 event) = services (step st2 event).
Proof.
  intros Heq. destruct event; cbn; rewrite ?Heq; reflexivity.
Qed.

Lemma run_services_congruence (events : list ServiceEvent) :
  forall st1 st2,
    services st1 = services st2 ->
    services (run events st1) = services (run events st2).
Proof.
  induction events as [|event events IH]; intros st1 st2 Heq; [exact Heq|].
  cbn [run fold_left]. apply IH. now apply step_services_congruence.
Qed.

(** X8.  A full resync forgets what came before: after a
    [ServicesDiscovered] event, and whatever events follow it, the list of
    services is the same from any two stores; the events that were applied,
    or missed, before the resync do not show in it. *)
Theorem resync_forgets_the_past
  (payload : list Service.t) (before1 before2 after : list ServiceEvent)
  (st1 st2 : ServiceState.t) :
  services (run (before1 ++ ServicesDiscovered payload :: after) st1)
  = services (run (before2 ++ ServicesDiscovered payload :: after) st2).
Proof.
  unfold run. rewrite !fold_left_app. cbn [fold_left].
  apply run_services_congruence. reflexivity.
Qed.

End RealtimeMoreFacts.

(** ** The actions of the service store *)

Section StoreActionFacts.
Import ServiceState ServiceStore Realtime Examples.

Variable discover : Outcome (list Service.t).
Variable control : ApiCall -> Outcome unit.

(** X9.  [fetchServices] never fails and asks the backend once.  It leaves
    [isLoading] false and the selection as it was.  When the discovery
    succeeds the services are replaced, and an earlier error is cleared
    only if no auto-refresh is running; when it fails the services are kept
    and the error is recorded. *)
Theorem fetchServices_contract (state : ServiceState.t) :
  let result := exec (fetchServices discover) state in
  let state' := fst (fst result) in
  snd result = Fulfilled tt /\
  snd (fst result) = [DiscoverServices] /\
  isLoading state' = false /\
  selectedService state' = selectedService state /\
  (forall found, discover = Fulfilled found ->
     services state' = found /\
     error state' = match autoRefreshInterval state with
                    | None => None
                    | Some _ => error state
                    end) /\
  (forall e, discover = Rejected e ->
     services state' = services state /\ error state' = Some e).
Proof.
  cbn zeta. unfold exec, fetchServices, try_catch, bind, get, set, ret,
    api_discoverServices.
  destruct (autoRefreshInterval state) as [h|] eqn:Hauto; cbn;
    destruct discover as [found|e]; cbn;
    (split; [reflexivity|]); (split; [reflexivity|]); (split; [reflexivity|]);
    (split; [reflexivity|]); split; intros x [= <-]; split; reflexivity.
Qed.

(** The run of a control call followed by a refresh, as [startService],
    [stopService] and [restartService] make it. *)
Lemma control_then_fetch (call : ApiCall) (state : ServiceState.t) :
  exec (try_catch (bind (api_control control call) (fun _ => fetchServices discover))
                  (fun error => set (set_error (Some error)))) state
  = match control call with
    | Fulfilled _ =>
        ((fst (fst (exec (fetchServices discover) state)), [call; DiscoverServices]),
         Fulfilled tt)
    | Rejected e => ((set_error (Some e) state, [call]), Fulfilled tt)
    end.
Proof.
  unfold exec, fetchServices, try_catch, bind, get, set, ret,
    api_control, api_discoverServices.
  destruct (control call) as [[]|e]; cbn; [|reflexivity].
  destruct (autoRefreshInterval state); cbn; destruct discover; reflexivity.
Qed.

(** X10.  [startService], [stopService] and [restartService] never fail.
    Each sends its command once, with the id it was given.  When the
    backend rejects the command the error is recorded, nothing else of the
    store changes and the services are not fetched again; when it accepts,
    the services are fetched once, and the store is the one [fetchServices]
    alone leaves. *)
Theorem control_actions_contract (serviceId : string) (state : ServiceState.t) :
  let refreshed := fst (fst (exec (fetchServices discover) state)) in
  let outcome_of call :=
    match control call with
    | Fulfilled _ => ((refreshed, [call; DiscoverServices]), Fulfilled tt)
    | Rejected e => ((set_error (Some e) state, [call]), Fulfilled tt)
    end in
  exec (startService discover control serviceId) state
    = outcome_of (StartService serviceId) /\
  exec (stopService discover control serviceId) state
    = outcome_of (StopService serviceId) /\
  exec (restartService discover control serviceId) state
    = outcome_of (RestartService serviceId).
Proof.
  cbn zeta. unfold startService, stopService, restartService.
  now rewrite !control_then_fetch.
Qed.

(** X11.  [toggleAutostart] on a service the store holds sends one command,
    enable or disable, with the id it was given and the type of the first
    service of that id.  When the backend rejects it, the error is recorded
    in the store and the action fails with the same error, without fetching
    the services; when it accepts, the services are fetched once and the
    action succeeds.  The action fails in no other case. *)
Theorem toggleAutostart_contract
  (serviceId : string) (enable : bool) (state : ServiceState.t) :
  (forall service,
     find_service serviceId (services state) = Some service ->
     let call := autostart_call serviceId enable service in
     exec (toggleAutostart discover control serviceId enable) state
     = match control call with
       | Fulfilled _ =>
           ((fst (fst (exec (fetchServices discover) state)), [call; DiscoverServices]),
            Fulfilled tt)
       | Rejected e => ((set_error (Some e) state, [call]), Rejected e)
       end) /\
  (forall e,
     snd (exec (toggleAutostart discover control serviceId enable) state) = Rejected e <->
     exists service,
       find_service serviceId (services state) = Some service /\
       control (autostart_call serviceId enable service) = Rejected e).
Proof.
  assert (Hrun : forall service,
     find_service serviceId (services state) = Some service ->
     exec (toggleAutostart discover control serviceId enable) state
     = match control (autostart_call serviceId enable service) with
       | Fulfilled _ =>
           ((fst (fst (exec (fetchServices discover) state)),
             [autostart_call serviceId enable service; DiscoverServices]),
            Fulfilled tt)
       | Rejected e =>
           ((set_error (Some e) state, [autostart_call serviceId enable service]),
            Rejected e)
       end).
  { intros service Hfind.
    unfold exec, toggleAutostart, autostart_call, fetchServices, try_catch, bind,
      get, set, ret, throw, api_control, api_discoverServices.
    cbn. rewrite Hfind.
    destruct enable; cbn;
      (destruct (control _) as [[]|e]; cbn; [|reflexivity]);
      destruct (autoRefreshInterval state); cbn; destruct discover; reflexivity. }
  split; [exact Hrun|].
  intros e. destruct (find_service serviceId (services state)) as [service|] eqn:Hfind.
  - rewrite (Hrun service eq_refl). split.
    + intros Hrej. exists service. split; [reflexivity|].
      destruct (control _) as [[]|e']; cbn in Hrej; congruence.
    + intros (service' & [= <-] & Hrej). now rewrite Hrej.
  - split.
    + unfold exec, toggleAutostart, bind, get, set. cbn. rewrite Hfind. discriminate.
    + intros (service' & Hsome & _). discriminate Hsome.
Qed.

Lemma find_service_distinct (l : list Service.t) (service : Service.t) :
  distinct_ids l -> In service l -> find_service (Service.id service) l = Some service.
Proof.
  unfold distinct_ids, find_service.
  induction l as [|s l IH]; cbn; intros Hd Hin; [contradiction|].
  apply NoDup_cons_iff in Hd as [Hfresh Hd].
  destruct (String.eqb_spec (Service.id s) (Service.id service)) as [Heq|Hne].
  - destruct Hin as [->|Hin]; [reflexivity|].
    exfalso. apply Hfresh. rewrite Heq. now apply in_map.
  - destruct Hin as [->|Hin]; [now elim Hne|]. now apply IH.
Qed.

(** X12.  In a store with distinct ids, [killService] with the id of a
    listed service that has a pid other than 0 sends [kill_process] once,
    with the pid of that service; it never fails: a rejection is recorded
    as the error, an acceptance is followed by one fetch of the services.
    On a service whose pid is [null] or 0 it does nothing at all. *)
Theorem killService_kills_listed_pid
  (state : ServiceState.t) (service : Service.t) (p : N) :
  distinct_ids (services state) ->
  In service (services state) ->
  Service.pid service = Some p ->
  p <> 0%N ->
  exec (killService discover control (Service.id service)) state
  = match control (KillProcess p) with
    | Fulfilled _ =>
        ((fst (fst (exec (fetchServices discover) state)),
          [KillProcess p; DiscoverServices]), Fulfilled tt)
    | Rejected e => ((set_error (Some e) state, [KillProcess p]), Fulfilled tt)
    end /\
  (forall st serviceId s,
     find_service serviceId (services st) = Some s ->
     Service.pid s = None \/ Service.pid s = Some 0%N ->
     exec (killService discover control serviceId) st = ((st, []), Fulfilled tt)).
Proof.
  intros Hd Hin Hpid Hp. split.
  - unfold exec, killService, fetchServices, try_catch, bind, get, set, ret,
      api_control, api_discoverServices.
    cbn. rewrite (find_service_distinct _ _ Hd Hin). cbn. rewrite Hpid.
    destruct (N.eqb_spec p 0) as [Hz|_]; [contradiction|].
    destruct (control (KillProcess p)) as [[]|e]; cbn; [|reflexivity].
    destruct (autoRefreshInterval state); cbn; destruct discover; reflexivity.
  - intros st serviceId s Hfind Hnopid.
    unfold exec, killService, try_catch, bind, get, ret. cbn. rewrite Hfind. cbn.
    destruct Hnopid as [-> | ->]; reflexivity.
Qed.

End StoreActionFacts.

Lemma killService_kills_listed_pid_witness :
  Realtime.distinct_ids (ServiceState.services Examples.example_state) /\
  In (Examples.example_service "docker:web")
     (ServiceState.services Examples.example_state) /\
  exec_kill_example = ((ServiceState.set_error (Some "denied") Examples.example_state,
                         [KillProcess 4321]), Fulfilled tt).
Proof.
  assert (Hd : Realtime.distinct_ids (ServiceState.services Examples.example_state)).
  { unfold Realtime.distinct_ids. cbn. constructor; [intros []|constructor]. }
  assert (Hin : In (Examples.example_service "docker:web")
                   (ServiceState.services Examples.example_state)).
  { now left. }
  assert (Hp : 4321%N <> 0%N) by discriminate.
  split; [exact Hd|split; [exact Hin|]].
  exact (proj1 (killService_kills_listed_pid
                  (Rejected "offline") (fun _ => Rejected "denied")
                  Examples.example_state (Examples.example_service "docker:web")
                  4321 Hd Hin eq_refl Hp)).
Defined.

(** ** The auto-refresh timer *)

Section AutoRefreshFacts.
Import ServiceState AutoRefresh.

Lemma clear_accounted_timer (h p : N) :
  filter (fun t => negb (N.eqb (handle t) h)) [mkTimer h p] = [].
Proof. cbn. now rewrite N.eqb_refl. Qed.

Lemma apply_op_keeps_account (env : Env) (op : Op) :
  timers env = accounted_timers (store env) ->
  timers (apply_op env op) = accounted_timers (store (apply_op env op)).
Proof.
  destruct env as [state ts next]. unfold accounted_timers. cbn [timers store].
  intros ->.
  destruct op as [intervalMs| |intervalMs]; cbn;
    unfold startAutoRefresh, stopAutoRefresh, setRefreshInterval; cbn;
    destruct (autoRefreshInterval state) as [h|] eqn:Hauto; cbn;
    rewrite ?Hauto; cbn; rewrite ?N.eqb_refl; reflexivity.
Qed.

(** X13.  The store accounts for every interval timer it sets: when the
    only live timers are the one whose handle the store holds, ticking at
    the store's [refreshIntervalMs], or none when it holds none, this is
    still so after any sequence of [startAutoRefresh], [stopAutoRefresh]
    and [setRefreshInterval]; so at most one timer is live, and none after
    a final [stopAutoRefresh]. *)
Theorem auto_refresh_accounts_for_its_timer (ops : list Op) :
  forall env,
    timers env = accounted_timers (store env) ->
    let env' := run_ops ops env in
    timers env' = accounted_timers (store env') /\
    List.length (timers env') <= 1 /\
    timers (stopAutoRefresh env') = [].
Proof.
  induction ops as [|op ops IH]; intros env Hacc; cbn zeta;
    unfold run_ops; cbn [fold_left].
  - split; [exact Hacc|].
    unfold stopAutoRefresh, accounted_timers in *.
    destruct (autoRefreshInterval (store env)) as [h|]; cbn; rewrite Hacc; cbn;
      rewrite ?N.eqb_refl; cbn; split; auto.
  - apply (IH (apply_op env op)).
    now apply apply_op_keeps_account.
Qed.

Lemma auto_refresh_accounts_for_its_timer_witness :
  timers initial_env = accounted_timers (store initial_env) /\
  timers (run_ops [Start (Some 5000%N); SetInterval 3000; Start None] initial_env)
  = [mkTimer 3 3000] /\
  timers (run_ops [Start (Some 5000%N); Stop; SetInterval 1000] initial_env) = [].
Proof.
  split; [reflexivity|]. split.
  - exact (proj1 (auto_refresh_accounts_for_its_timer
                    [Start (Some 5000%N); SetInterval 3000; Start None]
                    initial_env eq_refl)).
  - exact (proj1 (auto_refresh_accounts_for_its_timer
                    [Start (Some 5000%N); Stop; SetInterval 1000]
                    initial_env eq_refl)).
Defined.

End AutoRefreshFacts.

(** ** The hooks over the stores and the counts of the Dashboard *)

Section HookFacts.
Import Hooks.

Lemma protocol_eqb_eq (a b : Protocol) : protocol_eqb a b = true <-> a = b.
Proof. destruct a, b; cbn; split; intros H; congruence. Qed.

Lemma type_eqb_eq (a b : ServiceType) : type_eqb a b = true <-> a = b.
Proof. destruct a, b; cbn; split; intros H; congruence. Qed.

Lemma type_eqb_refl (a : ServiceType) : type_eqb a a = true.
Proof. now destruct a. Qed.

Lemma udp_is_not_tcp (a : Protocol) : protocol_eqb a udp = negb (protocol_eqb a tcp).
Proof. now destruct a. Qed.

(** X14.  [usePortsByProtocol] splits the ports of the store: a record is
    in [tcp] exactly when it is a record of the store with protocol tcp, in
    [udp] exactly when it is one with protocol udp, and the two lists
    together hold every record of the store as often as it occurs there. *)
Theorem ports_by_protocol_partition (ports : list PortInfo.t) :
  let groups := usePortsByProtocol ports in
  (forall p, In p (fst groups) <-> In p ports /\ PortInfo.protocol p = tcp) /\
  (forall p, In p (snd groups) <-> In p ports /\ PortInfo.protocol p = udp) /\
  Permutation (fst groups ++ snd groups) ports /\
  List.length (fst groups) + List.length (snd groups) = List.length ports.
Proof.
  cbn. assert (Hperm := filter_split_permutation
                 (fun p => protocol_eqb (PortInfo.protocol p) tcp)
                 (fun p => protocol_eqb (PortInfo.protocol p) udp)
                 ports (fun p => udp_is_not_tcp (PortInfo.protocol p))).
  split; [|split; [|split; [exact Hperm|]]].
  - intros p. now rewrite filter_In, protocol_eqb_eq.
  - intros p. now rewrite filter_In, protocol_eqb_eq.
  - rewrite <- length_app. now apply Permutation_length.
Qed.

Lemma high_is_not_well_known (n : N) : N.leb 1024 n = negb (N.ltb n 1024).
Proof.
  destruct (N.leb_spec 1024 n), (N.ltb_spec n 1024); cbn; try reflexivity; lia.
Qed.

(** X15.  [useWellKnownPorts] and [useHighPorts] split the ports of the
    store at 1024: a record is well known exactly when its port is below
    1024 and high exactly when its port is 1024 or more, so port 1024 is a
    high port; every record is in exactly one of the two lists. *)
Theorem well_known_and_high_ports_partition (ports : list PortInfo.t) :
  (forall p, In p (useWellKnownPorts ports) <->
             In p ports /\ (PortInfo.port p < 1024)%N) /\
  (forall p, In p (useHighPorts ports) <->
             In p ports /\ (1024 <= PortInfo.port p)%N) /\
  (forall p, ~ (In p (useWellKnownPorts ports) /\ In p (useHighPorts ports))) /\
  Permutation (useWellKnownPorts ports ++ useHighPorts ports) ports.
Proof.
  unfold useWellKnownPorts, useHighPorts.
  split; [|split; [|split]].
  - intros p. now rewrite filter_In, N.ltb_lt.
  - intros p. now rewrite filter_In, N.leb_le.
  - intros p. rewrite !filter_In, N.ltb_lt, N.leb_le. lia.
  - apply filter_split_permutation. intros p. apply high_is_not_well_known.
Qed.

Lemma get_set_group_same (t : ServiceType) (members : list Service.t) (groups : Groups) :
  get_group t (set_group t members groups) = Some members.
Proof.
  induction groups as [|[t' old] rest IH]; cbn.
  - now rewrite type_eqb_refl.
  - destruct (type_eqb t' t) eqn:Ht; cbn; now rewrite Ht.
Qed.

Lemma get_set_group_other (t t' : ServiceType) (members : list Service.t)
  (groups : Groups) :
  type_eqb t t' = false ->
  get_group t' (set_group t members groups) = get_group t' groups.
Proof.
  intros Hne. induction groups as [|[t0 old] rest IH]; cbn.
  - destruct (type_eqb t t') eqn:H; [congruence|reflexivity].
  - destruct (type_eqb t0 t) eqn:Ht; cbn.
    + apply type_eqb_eq in Ht. subst t0. now rewrite Hne.
    + now rewrite IH.
Qed.

Lemma get_add_to_group (t : ServiceType) (groups : Groups) (service : Service.t) :
  get_group t (add_to_group groups service) =
  if type_eqb (Service.service_type service) t
  then Some (match get_group t groups with
             | Some members => members ++ [service]
             | None => [service]
             end)
  else get_group t groups.
Proof.
  unfold add_to_group.
  destruct (type_eqb (Service.service_type service) t) eqn:Ht.
  - apply type_eqb_eq in Ht. subst t.
    destruct (get_group (Service.service_type service) groups) as [members|] eqn:Hg.
    + now rewrite Hg, get_set_group_same.
    + now rewrite !get_set_group_same.
  - destruct (get_group (Service.service_type service) groups) as [members|] eqn:Hg.
    + now rewrite Hg, get_set_group_other.
    + now rewrite get_set_group_same, !get_set_group_other.
Qed.

(** X16.  [useServicesGroupedByType] files every service under its type:
    the group of a type holds exactly the services of that type, in the
    order of the store, and a type without a service has no key. *)
Theorem services_grouped_by_type (services : list Service.t) (t : ServiceType) :
  get_group t (useServicesGroupedByType services) =
  match filter (fun s => type_eqb (Service.service_type s) t) services with
  | [] => None
  | members => Some members
  end.
Proof.
  unfold useServicesGroupedByType.
  induction services as [|service services IH] using rev_ind; [reflexivity|].
  rewrite fold_left_app, filter_app. cbn [fold_left filter].
  rewrite get_add_to_group, IH.
  destruct (type_eqb (Service.service_type service) t).
  - destruct (filter _ services); reflexivity.
  - rewrite app_nil_r. reflexivity.
Qed.

(** X17.  The counts of the Dashboard: a service counts as running, stopped
    or in error, or else its status is unknown, so the three counts add up
    to the number of services less those of unknown status;
    [useRunningServicesCount] is the Dashboard's running count. *)
Theorem dashboard_counts_add_up (services : list Service.t) :
  Dashboard.runningServices services + Dashboard.stoppedServices services
  + Dashboard.errorServices services
  + List.length (useServicesByStatus status_unknown services)
  = List.length services /\
  useRunningServicesCount services = Dashboard.runningServices services /\
  Dashboard.runningServices services = List.length (useServicesByStatus running services).
Proof.
  split; [|split; reflexivity].
  unfold Dashboard.runningServices, Dashboard.stoppedServices,
    Dashboard.errorServices, useServicesByStatus.
  induction services as [|s services IH]; [reflexivity|].
  cbn [filter]. destruct (Service.status s); cbn; lia.
Qed.

End HookFacts.

(** ** The search of the Ports page *)

Section PortsPageFacts.
Import PortsPage.

Variable toLowerCase : string -> string.

Lemma prefix_refl (s : string) : String.prefix s s = true.
Proof.
  induction s as [|c s IH]; [reflexivity|].
  cbn. destruct (ascii_dec c c) as [_|Hne]; [exact IH|now elim Hne].
Qed.

Lemma includes_empty (s : string) : includes s EmptyString = true.
Proof. destruct s; reflexivity. Qed.

Lemma includes_self (s : string) : includes s s = true.
Proof. destruct s; cbn [includes]; now rewrite prefix_refl. Qed.

(** X18.  The search of the Ports page: with an empty search term every
    port of the store is listed; a record is listed whenever the term is
    its port number in decimal, whatever its process name; and what is
    listed is always a record of the store, in the order of the store. *)
Theorem port_search_edge_cases (ports : list PortInfo.t) :
  filteredPorts toLowerCase ports EmptyString = ports /\
  (forall p, In p ports ->
     In p (filteredPorts toLowerCase ports (decimal (PortInfo.port p)))) /\
  (forall searchTerm p,
     In p (filteredPorts toLowerCase ports searchTerm) -> In p ports) /\
  (forall searchTerm p,
     In p ports -> PortInfo.process_name p = None ->
     (In p (filteredPorts toLowerCase ports searchTerm) <->
      includes (decimal (PortInfo.port p)) searchTerm = true)).
Proof.
  unfold filteredPorts, matches. split; [|split; [|split]].
  - induction ports as [|p ports IH]; [reflexivity|].
    cbn [filter]. rewrite includes_empty. cbn. now rewrite IH.
  - intros p Hin. apply filter_In. split; [exact Hin|].
    now rewrite includes_self.
  - intros searchTerm p Hin. now apply filter_In in Hin.
  - intros searchTerm p Hin Hname. rewrite filter_In, Hname, orb_false_r. tauto.
Qed.

End PortsPageFacts.

(** ** The actions of the Security page *)

Section SecurityPageFacts.
Import SecurityPage.

Variable analyze : Commands.Invoke -> Outcome string.
Variable discover : Outcome (list Service.t).
Variable scan : Outcome SecurityScanResult.t.

Lemma analysis_projection_of_view (s s' : Service.t) :
  analysis_view s = analysis_view s' -> analysis_projection s = analysis_projection s'.
Proof.
  unfold analysis_view, analysis_projection. now intros [= -> -> -> ->].
Qed.

(** X19.  The request of the AI analysis reads the first 30 services of the
    store and, of each, its name, ports, status and type: two lists of
    services that agree on these leave the same request and so the same
    page, whatever their ids, pids, paths or resource figures and whatever
    follows the thirtieth service. *)
Theorem analysis_reads_four_fields_of_thirty
  (services services' : list Service.t) (page : Page) :
  map analysis_view (firstn 30 services) = map analysis_view (firstn 30 services') ->
  analysis_request services = analysis_request services' /\
  runLlmAnalysis analyze services page = runLlmAnalysis analyze services' page.
Proof.
  intros Hview.
  assert (Hmap : map analysis_projection (firstn 30 services)
                 = map analysis_projection (firstn 30 services')).
  { revert Hview. generalize (firstn 30 services) (firstn 30 services').
    induction l as [|s l IH]; intros [|s' l']; cbn; intros Hview;
      try discriminate Hview; [reflexivity|].
    injection Hview as Hname Hports Hstatus Htype Hl.
    f_equal; [|now apply IH].
    apply analysis_projection_of_view. unfold analysis_view. congruence. }
  assert (Hreq : analysis_request services = analysis_request services').
  { unfold analysis_request, Commands.slice_to. now rewrite Hmap. }
  split; [exact Hreq|]. unfold runLlmAnalysis. now rewrite Hreq.
Qed.

Lemma fetchServices_fulfilled (state : ServiceState.t) (trace : list ApiCall) :
  snd (ServiceStore.fetchServices discover state trace) = Fulfilled tt.
Proof.
  unfold ServiceStore.fetchServices, ServiceStore.try_catch, ServiceStore.bind,
    ServiceStore.get, ServiceStore.set, ServiceStore.ret,
    ServiceStore.api_discoverServices.
  destruct (ServiceState.autoRefreshInterval state); cbn; destruct discover; reflexivity.
Qed.

(** X20.  [runScan] always settles with [isScanning] false and leaves the
    analysis alone.  The page shows the result of the scan when
    [scan_security] succeeds, with no error, and keeps the result it had,
    with the error, when it fails.  A failure of the discovery that
    precedes the scan does not stop it and does not reach the page: the
    service store is the one [fetchServices] leaves, which holds that
    error. *)
Theorem runScan_contract (page : Page) (state : ServiceState.t) :
  let result := ServiceStore.exec (runScan discover scan page) state in
  fst result = fst (ServiceStore.exec (ServiceStore.fetchServices discover) state) /\
  exists page',
    snd result = Fulfilled page' /\
    isScanning page' = false /\
    llmAnalysis page' = llmAnalysis page /\
    isAnalyzing page' = isAnalyzing page /\
    (forall r, scan = Fulfilled r ->
       scanResult page' = Some r /\ error page' = None) /\
    (forall e, scan = Rejected e ->
       scanResult page' = scanResult page /\ error page' = Some e).
Proof.
  cbn zeta. unfold ServiceStore.exec, runScan.
  pose proof (fetchServices_fulfilled state []) as Hout.
  destruct (ServiceStore.fetchServices discover state []) as [w out]. cbn in Hout.
  subst out.
  destruct scan as [r|e]; (split; [reflexivity|]); eexists;
    (split; [reflexivity|]); cbn;
    (split; [reflexivity|]); (split; [reflexivity|]); (split; [reflexivity|]);
    split; intros x [= <-]; split; reflexivity.
Qed.

End SecurityPageFacts.

Lemma analysis_reads_four_fields_of_thirty_witness :
  map SecurityPage.analysis_view
      (firstn 30 [Examples.example_service "docker:web"])
  = map SecurityPage.analysis_view
        (firstn 30 [Examples.example_service "systemd:sshd"]) /\
  SecurityPage.analysis_request [Examples.example_service "docker:web"]
  = SecurityPage.analysis_request [Examples.example_service "systemd:sshd"].
Proof.
  split; [reflexivity|].
  exact (proj1 (analysis_reads_four_fields_of_thirty
                  (fun _ => Rejected "offline")
                  [Examples.example_service "docker:web"]
                  [Examples.example_service "systemd:sshd"]
                  (SecurityPage.mkPage None None false false None) eq_refl)).
Defined.

(** ** One tick of the Performance page *)

Section TickFacts.
Import Performance.

Lemma slice_last_keeps_newest {A} (l : list A) (x : A) :
  slice_last MAX_HISTORY_POINTS (l ++ [x]) = skipn (List.length l - 359) l ++ [x].
Proof.
  unfold MAX_HISTORY_POINTS. cbn [slice_last].
  rewrite length_app. cbn [List.length].
  replace (List.length l + 1 - 360) with (List.length l - 359) by lia.
  rewrite skipn_app.
  replace (List.length l - 359 - List.length l) with 0 by lia.
  reflexivity.
Qed.

(** X21.  One tick of the Performance page, from any page.  A successful
    tick shows the new sample, clears the error, and makes each series its
    last 359 points followed by the value of the new sample, so the newest
    value is always the last point and no series grows beyond 360 points;
    a failed tick records the error and keeps the sample shown and the
    history. *)
Theorem tick_appends_newest_sample (page : Page) (s : SystemStats.t) :
  let page' := fetchStats (Fulfilled s) page in
  let h := history page in
  let h' := history page' in
  stats page' = Some s /\
  error page' = None /\
  (timestamps h' =
     skipn (List.length (timestamps h) - 359) (timestamps h)
     ++ [SystemStats.timestamp s] /\
   cpuUsage h' =
     skipn (List.length (cpuUsage h) - 359) (cpuUsage h)
     ++ [CpuStats.usage_percent (SystemStats.cpu s)] /\
   memoryUsage h' =
     skipn (List.length (memoryUsage h) - 359) (memoryUsage h)
     ++ [MemoryStats.usage_percent (SystemStats.memory s)] /\
   gpuUsage h' =
     skipn (List.length (gpuUsage h) - 359) (gpuUsage h) ++ [first_gpu_usage s]) /\
  (List.length (timestamps h') <= 360 /\ List.length (cpuUsage h') <= 360 /\
   List.length (memoryUsage h') <= 360 /\ List.length (gpuUsage h') <= 360) /\
  (forall e,
     let failed := fetchStats (Rejected e) page in
     stats failed = stats page /\ history failed = h /\ error failed = Some e).
Proof.
  cbn zeta. cbn [fetchStats stats error history]. unfold push_sample.
  cbn [timestamps cpuUsage memoryUsage gpuUsage].
  rewrite !slice_last_keeps_newest.
  split; [reflexivity|]. split; [reflexivity|]. split; [now repeat split|].
  split; [|now intros e].
  rewrite !length_app, !length_skipn. cbn [List.length]. lia.
Qed.

End TickFacts.

(** ** The actions of the port store *)

Section PortStoreFacts.
Import PortState.

Variable api_getPortUsage : Outcome (list PortInfo.t).
Variable api_scanPorts : N -> N -> Outcome (list PortInfo.t).
Variable api_findFreePorts : nat -> Outcome (list N).

(** X22.  How the port store handles failures.  [fetchPortUsage] and
    [scanPorts] never fail and leave [isLoading] false: on success the
    table is replaced and an earlier error cleared, on failure the table is
    kept and the error recorded.  [findFreePorts] never touches the table
    or [isLoading], and on success leaves an earlier error standing. *)
Theorem port_store_failure_handling (state : PortState.t) (start end_ : N) (n : nat) :
  loads_table state api_getPortUsage
    (PortStore.fetchPortUsage api_getPortUsage state) /\
  loads_table state (api_scanPorts start end_)
    (PortStore.scanPorts api_scanPorts start end_ state) /\
  (let result := PortStore.findFreePorts api_findFreePorts n state in
   ports (fst result) = ports state /\
   isLoading (fst result) = isLoading state /\
   (forall found, api_findFreePorts n = Fulfilled found ->
      snd result = Fulfilled found /\ error (fst result) = error state)).
Proof.
  unfold loads_table, PortStore.fetchPortUsage, PortStore.scanPorts,
    PortStore.findFreePorts.
  split; [|split].
  - destruct api_getPortUsage as [found|e]; cbn;
      (split; [reflexivity|]); (split; [reflexivity|]);
      split; intros x [= <-]; split; reflexivity.
  - destruct (api_scanPorts start end_) as [found|e]; cbn;
      (split; [reflexivity|]); (split; [reflexivity|]);
      split; intros x [= <-]; split; reflexivity.
  - cbn zeta. destruct (api_findFreePorts n) as [found|e]; cbn;
      (split; [reflexivity|]); (split; [reflexivity|]);
      intros x [= <-]; split; reflexivity.
Qed.

End PortStoreFacts.
